(** * The unlimited archiver (fetcher/main_v3.py): model and properties

    A shallow embedding of [UnlimitedEpsteinArchiver]: the cache dataclasses,
    the transport wrapper, the page walker, the dataset discoverer, the
    downloader, the cache store and the command driver, followed by the
    properties of the design document that the code has or fails to have.

    What is modelled, and how:
    - the in-memory cache ([self.cache]) together with the payload files
      under [raw/], the two cache files and the list of urls requested so
      far form one [World], threaded through every method;
    - [self.cache.files] is the object store: a [FileMetadata] object is
      named by its url, and a method that mutates a record it was handed
      writes the result back under that url;
    - the remote server is a function from urls to transport outcomes;
    - [datetime.now().isoformat()] is the argument [now] of each method:
      all readings of the clock within one call give the same instant;
    - the regular-expression scan of [_extract_file_links] and MD5 are
      parameters ([Env]); sleeping and logging are left out, except for
      the log lines of [_load_cache]. *)

From Stdlib Require Import ZArith String List Bool Lia.
From stdpp Require Import base option list sorting gmap sets strings pretty.
Import ListNotations.

Local Open Scope string_scope.
Local Open Scope list_scope.
Local Open Scope Z_scope.

(** ** Data model *)

Inductive DownloadStatus := PENDING | SUCCESS | FAILED | SKIPPED.

#[global] Instance DownloadStatus_eq_dec : EqDecision DownloadStatus.
Proof. solve_decision. Defined.

Record FileMetadata := mkFileMetadata {
  url : string;
  filename : string;
  dataset : Z;
  discovered_at : string;
  last_checked : option string;
  status : DownloadStatus;
  download_path : option string;
  file_size : option Z;
  checksum : option string;
  download_attempts : Z;
  last_error : option string;
  downloaded_at : option string
}.

Record CacheState := mkCacheState {
  version : string;
  created_at : option string;
  last_updated : option string;
  files : gmap string FileMetadata;
  datasets_scanned : gset Z;
  max_dataset_found : Z;
  total_discovered : Z;
  total_downloaded : Z;
  total_failed : Z;
  total_skipped : Z
}.

(** [CacheState()]: every field at its default, both stamps read from the clock. *)
Definition new_CacheState (now : string) : CacheState :=
  mkCacheState "2.0" (Some now) (Some now) ∅ ∅ 0 0 0 0 0.

(** Field assignments on a [FileMetadata] object. *)
Definition set_last_checked (v : option string) (m : FileMetadata) : FileMetadata :=
  mkFileMetadata (url m) (filename m) (dataset m) (discovered_at m) v (status m)
    (download_path m) (file_size m) (checksum m) (download_attempts m)
    (last_error m) (downloaded_at m).
Definition set_status (v : DownloadStatus) (m : FileMetadata) : FileMetadata :=
  mkFileMetadata (url m) (filename m) (dataset m) (discovered_at m) (last_checked m) v
    (download_path m) (file_size m) (checksum m) (download_attempts m)
    (last_error m) (downloaded_at m).
Definition set_download_path (v : option string) (m : FileMetadata) : FileMetadata :=
  mkFileMetadata (url m) (filename m) (dataset m) (discovered_at m) (last_checked m)
    (status m) v (file_size m) (checksum m) (download_attempts m)
    (last_error m) (downloaded_at m).
Definition set_file_size (v : option Z) (m : FileMetadata) : FileMetadata :=
  mkFileMetadata (url m) (filename m) (dataset m) (discovered_at m) (last_checked m)
    (status m) (download_path m) v (checksum m) (download_attempts m)
    (last_error m) (downloaded_at m).
Definition set_checksum (v : option string) (m : FileMetadata) : FileMetadata :=
  mkFileMetadata (url m) (filename m) (dataset m) (discovered_at m) (last_checked m)
    (status m) (download_path m) (file_size m) v (download_attempts m)
    (last_error m) (downloaded_at m).
Definition set_download_attempts (v : Z) (m : FileMetadata) : FileMetadata :=
  mkFileMetadata (url m) (filename m) (dataset m) (discovered_at m) (last_checked m)
    (status m) (download_path m) (file_size m) (checksum m) v
    (last_error m) (downloaded_at m).
Definition set_last_error (v : option string) (m : FileMetadata) : FileMetadata :=
  mkFileMetadata (url m) (filename m) (dataset m) (discovered_at m) (last_checked m)
    (status m) (download_path m) (file_size m) (checksum m) (download_attempts m)
    v (downloaded_at m).
Definition set_downloaded_at (v : option string) (m : FileMetadata) : FileMetadata :=
  mkFileMetadata (url m) (filename m) (dataset m) (discovered_at m) (last_checked m)
    (status m) (download_path m) (file_size m) (checksum m) (download_attempts m)
    (last_error m) v.

(** Field assignments on the cache. *)
Definition set_last_updated (v : option string) (c : CacheState) : CacheState :=
  mkCacheState (version c) (created_at c) v (files c) (datasets_scanned c)
    (max_dataset_found c) (total_discovered c) (total_downloaded c)
    (total_failed c) (total_skipped c).
Definition set_files (v : gmap string FileMetadata) (c : CacheState) : CacheState :=
  mkCacheState (version c) (created_at c) (last_updated c) v (datasets_scanned c)
    (max_dataset_found c) (total_discovered c) (total_downloaded c)
    (total_failed c) (total_skipped c).
Definition set_datasets_scanned (v : gset Z) (c : CacheState) : CacheState :=
  mkCacheState (version c) (created_at c) (last_updated c) (files c) v
    (max_dataset_found c) (total_discovered c) (total_downloaded c)
    (total_failed c) (total_skipped c).
Definition set_max_dataset_found (v : Z) (c : CacheState) : CacheState :=
  mkCacheState (version c) (created_at c) (last_updated c) (files c) (datasets_scanned c)
    v (total_discovered c) (total_downloaded c) (total_failed c) (total_skipped c).
Definition set_total_discovered (v : Z) (c : CacheState) : CacheState :=
  mkCacheState (version c) (created_at c) (last_updated c) (files c) (datasets_scanned c)
    (max_dataset_found c) v (total_downloaded c) (total_failed c) (total_skipped c).
Definition set_total_downloaded (v : Z) (c : CacheState) : CacheState :=
  mkCacheState (version c) (created_at c) (last_updated c) (files c) (datasets_scanned c)
    (max_dataset_found c) (total_discovered c) v (total_failed c) (total_skipped c).
Definition set_total_failed (v : Z) (c : CacheState) : CacheState :=
  mkCacheState (version c) (created_at c) (last_updated c) (files c) (datasets_scanned c)
    (max_dataset_found c) (total_discovered c) (total_downloaded c) v (total_skipped c).
Definition set_total_skipped (v : Z) (c : CacheState) : CacheState :=
  mkCacheState (version c) (created_at c) (last_updated c) (files c) (datasets_scanned c)
    (max_dataset_found c) (total_discovered c) (total_downloaded c) (total_failed c) v.

(** ** Persisted cache file *)

(** The JSON object of one file entry, as [json.load] hands it to
    [FileMetadata.from_dict]: a key that is absent (or null) is [None];
    [md_unknown] lists the keys that are no field of the dataclass. *)
Record MetaDoc := mkMetaDoc {
  md_url : option string;
  md_filename : option string;
  md_dataset : option Z;
  md_discovered_at : option string;
  md_last_checked : option string;
  md_status : option string;
  md_download_path : option string;
  md_file_size : option Z;
  md_checksum : option string;
  md_download_attempts : option Z;
  md_last_error : option string;
  md_downloaded_at : option string;
  md_unknown : list string
}.

(** The top-level JSON object of the cache file; [None] is an absent key. *)
Record CacheDoc := mkCacheDoc {
  cd_version : option string;
  cd_created_at : option string;
  cd_last_updated : option string;
  cd_files : option (gmap string MetaDoc);
  cd_datasets_scanned : option (list Z);
  cd_max_dataset_found : option Z;
  cd_total_discovered : option Z;
  cd_total_downloaded : option Z;
  cd_total_failed : option Z;
  cd_total_skipped : option Z
}.

(** What a cache file can hold. A document whose fields have the JSON types
    the dataclasses annotate is a [Document]; [Truncated] is the text
    [json.dump] leaves behind when it raises part-way; [Garbage] is any
    other text that [json.load] or [from_dict] reject (not JSON, or not a
    JSON object). *)
Inductive Content :=
| Document (d : CacheDoc)
| Truncated
| Garbage (text : string).

(** ** The world the archiver runs in *)

Record World := mkWorld {
  cache : CacheState;
  payloads : gmap string string;
  cache_file : option Content;
  backup_cache_file : option Content;
  requests : list string
}.

Definition set_cache (c : CacheState) (w : World) : World :=
  mkWorld c (payloads w) (cache_file w) (backup_cache_file w) (requests w).
Definition set_payloads (p : gmap string string) (w : World) : World :=
  mkWorld (cache w) p (cache_file w) (backup_cache_file w) (requests w).
Definition set_cache_file (f : option Content) (w : World) : World :=
  mkWorld (cache w) (payloads w) f (backup_cache_file w) (requests w).
Definition set_backup_cache_file (f : option Content) (w : World) : World :=
  mkWorld (cache w) (payloads w) (cache_file w) f (requests w).
Definition set_requests (r : list string) (w : World) : World :=
  mkWorld (cache w) (payloads w) (cache_file w) (backup_cache_file w) r.

(** What [session.request] can do with one url. *)
Inductive Transport :=
| Reply (code : Z) (body : string)
| BrokenStream (code : Z) (received : string)
| TimedOut
| ConnectionFailed.

(** A [requests.Response]: [intact = false] when reading the body of a
    streamed response raises after [text] has arrived. *)
Record Response := mkResponse {
  status_code : Z;
  text : string;
  intact : bool
}.

(** The parts of the program taken as parameters: the regular-expression
    scan of a page for pdf links, giving the resolved url and the
    percent-decoded basename of each match in match order, and MD5. *)
Class Env := {
  scan_links : string → string → list (string * string);
  md5_hexdigest : string → string
}.

(** ** Addresses and paths *)

Definition base_url : string := "https://www.justice.gov".
Definition raw_base_dir : string := "/data/downloads/raw".

(** The listing of a dataset; page 0 is the bare url. *)
Definition dataset_url (dataset_num : Z) : string :=
  base_url +:+ "/epstein/doj-disclosures/data-set-" +:+ pretty dataset_num +:+ "-files".

Definition page_url (dataset_num page : Z) : string :=
  if page =? 0 then dataset_url dataset_num
  else dataset_url dataset_num +:+ "?page=" +:+ pretty page.

Definition _get_dataset_dir (dataset_num : Z) : string :=
  raw_base_dir +:+ "/dataset" +:+ pretty dataset_num.

(** [dir / name] of pathlib: an absolute [name] replaces [dir]. The
    result is the string pathlib builds; it is the path the operating
    system resolves when [name] is a plain name ([plain_name] below), and
    need not be for a name with a separator or [..] in it. *)
Definition path_join (dir name : string) : string :=
  if String.prefix "/" name then name else dir +:+ "/" +:+ name.

(** [Path.exists] on a payload path. *)
Definition path_exists (w : World) (p : string) : bool :=
  bool_decide (is_Some (payloads w !! p)).

(** [Path.unlink(missing_ok=True)]. *)
Definition unlink (p : string) (w : World) : World :=
  set_payloads (delete p (payloads w)) w.

(** [open(p, 'wb')] followed by the writes: the file holds exactly [bytes].
    The directory of [p] is taken to exist, as it does for a plain name in
    a dataset directory; for a name with a separator [open] can raise. *)
Definition write_file (p bytes : string) (w : World) : World :=
  set_payloads (<[p := bytes]> (payloads w)) w.

(** [Path.rename]: the target is replaced, the source is gone. *)
Definition rename (src dst : string) (w : World) : World :=
  match payloads w !! src with
  | Some bytes => set_payloads (<[dst := bytes]> (delete src (payloads w))) w
  | None => w
  end.

(** ** Transport *)

(** [_make_request]: records the url, then maps a 403, a timeout and any
    other exception of [session.request] to [None]. A body that breaks is
    an exception of [session.request] itself unless [stream] is set. *)
Definition _make_request (server : string → Transport) (stream : bool)
    (w : World) (u : string) : World * option Response :=
  let w := set_requests (requests w ++ [u]) w in
  match server u with
  | Reply code body =>
      if code =? 403 then (w, None) else (w, Some (mkResponse code body true))
  | BrokenStream code received =>
      if stream then
        if code =? 403 then (w, None) else (w, Some (mkResponse code received false))
      else (w, None)
  | TimedOut => (w, None)
  | ConnectionFailed => (w, None)
  end.

(** [bool(response)] is [response.ok]: no 4xx and no 5xx status. *)
Definition response_ok (r : Response) : bool :=
  negb ((400 <=? status_code r) && (status_code r <? 600)).

(** ** Link extractor *)

Definition _extract_file_links `{Env} (html page : string) (dataset_num : Z)
    (now : string) : list FileMetadata :=
  map (λ '(file_url, name),
         mkFileMetadata file_url name dataset_num now None PENDING None None None 0 None None)
      (scan_links html page).

(** The loop that keeps the first record of every url, used twice by the
    page walker ([seen_urls] with [unique_files]). *)
Fixpoint unique_by_url (seen : gset string) (l : list FileMetadata) : list FileMetadata :=
  match l with
  | [] => []
  | f :: l =>
      if decide (url f ∈ seen) then unique_by_url seen l
      else f :: unique_by_url ({[url f]} ∪ seen) l
  end.

(** ** Verification and download *)

(** [_verify_pdf] on the bytes of an existing file. *)
Definition _verify_pdf (bytes : string) : bool := String.prefix "%PDF-" bytes.

Definition st_size (bytes : string) : Z := Z.of_nat (String.length bytes).

(** The failure exits of [download_file]: the record is marked, the
    counter of failures goes up by one. *)
Definition fail_download (msg : string) (w : World) (m : FileMetadata)
    : World * FileMetadata * (bool * option string) :=
  (set_cache (set_total_failed (total_failed (cache w) + 1) (cache w)) w,
   set_status FAILED (set_last_error (Some msg) m),
   (false, None)).

(** [download_file] on the record [m]; the record it returns is the
    state of the same object afterwards. *)
Definition download_file `{Env} (server : string → Transport) (now : string)
    (w : World) (m : FileMetadata) : World * FileMetadata * (bool * option string) :=
  let dataset_dir := _get_dataset_dir (dataset m) in
  let already :=
    match status m, download_path m with
    | SUCCESS, Some p => negb (String.eqb p "") && path_exists w p
    | _, _ => false
    end in
  if already then (w, m, (false, download_path m))
  else
    let local_file := path_join dataset_dir (filename m) in
    let in_place :=
      match payloads w !! local_file with
      | Some bytes => if _verify_pdf bytes then Some bytes else None
      | None => None
      end in
    match in_place with
    | Some bytes =>
        (set_cache (set_total_skipped (total_skipped (cache w) + 1) (cache w)) w,
         set_downloaded_at (Some now)
           (set_checksum (Some (md5_hexdigest bytes))
              (set_file_size (Some (st_size bytes))
                 (set_download_path (Some local_file) (set_status SUCCESS m)))),
         (false, Some local_file))
    | None =>
        let m := set_last_checked (Some now)
                   (set_download_attempts (download_attempts m + 1) m) in
        let temp_path := path_join dataset_dir (filename m +:+ ".tmp") in
        let '(w, response) := _make_request server true w (url m) in
        match response with
        | None => fail_download "HTTP Blocked" w m
        | Some r =>
            if negb (status_code r =? 200) then
              fail_download
                (if response_ok r then "HTTP " +:+ pretty (status_code r)
                 else "HTTP Blocked") w m
            else
              let w := write_file temp_path (text r) w in
              if negb (intact r) then
                let '(w, m, res) := fail_download "Connection broken" w m in
                (unlink temp_path w, m, res)
              else if negb (_verify_pdf (text r)) then
                fail_download "Invalid PDF" (unlink temp_path w) m
              else
                let size := st_size (text r) in
                if size <? 1024 then
                  fail_download "File too small" (unlink temp_path w) m
                else
                  let final_path := path_join dataset_dir (filename m) in
                  let w := rename temp_path final_path w in
                  (set_cache (set_total_downloaded (total_downloaded (cache w) + 1) (cache w)) w,
                   set_last_error None
                     (set_downloaded_at (Some now)
                        (set_checksum (Some (md5_hexdigest (text r)))
                           (set_file_size (Some size)
                              (set_download_path (Some final_path)
                                 (set_status SUCCESS m))))),
                   (true, Some final_path))
        end
    end.

(** ** Cache store *)

(** Exceptions, and a computation that returns or raises. *)
Inductive PyException :=
| JSONDecodeError | AttributeError | KeyError | ValueError | TypeError.

Inductive Result (A : Type) :=
| Returned (a : A)
| Raised (e : PyException).
Arguments Returned {A} a.
Arguments Raised {A} e.

#[global] Instance Result_ret : MRet Result := @Returned.
#[global] Instance Result_bind : MBind Result := λ A B k r,
  match r with
  | Returned a => k a
  | Raised e => Raised e
  end.

(** [try: body  except Exception as e: handler e]. *)
Definition try_except {A} (body : Result A) (handler : PyException → Result A) : Result A :=
  match body with
  | Returned a => Returned a
  | Raised e => handler e
  end.

(** [to_serializable]: the cache as dicts and lists. [asdict] copies an
    enum member as it is, so the status of a file entry is still the
    [DownloadStatus] member, not its text. *)
Record Serializable := mkSerializable {
  ser_version : string;
  ser_created_at : option string;
  ser_last_updated : option string;
  ser_files : gmap string FileMetadata;
  ser_datasets_scanned : list Z;
  ser_max_dataset_found : Z;
  ser_total_discovered : Z;
  ser_total_downloaded : Z;
  ser_total_failed : Z;
  ser_total_skipped : Z
}.

Definition to_serializable (c : CacheState) : Serializable :=
  mkSerializable (version c) (created_at c) (last_updated c) (files c)
    (elements (datasets_scanned c)) (max_dataset_found c) (total_discovered c)
    (total_downloaded c) (total_failed c) (total_skipped c).

(** [json.dump(serializable, f, indent=2, ensure_ascii=False)] on the file
    just opened for writing. The encoder has no rule for a plain [Enum]
    member: at the status of the first file entry it raises [TypeError],
    and the chunks written so far stay in the file. Without file entries
    the whole document is written. *)
Definition json_dump (s : Serializable) : Content * Result unit :=
  if decide (ser_files s = ∅) then
    (Document
       (mkCacheDoc (Some (ser_version s)) (ser_created_at s) (ser_last_updated s)
          (Some ∅) (Some (ser_datasets_scanned s)) (Some (ser_max_dataset_found s))
          (Some (ser_total_discovered s)) (Some (ser_total_downloaded s))
          (Some (ser_total_failed s)) (Some (ser_total_skipped s))),
     Returned tt)
  else (Truncated, Raised TypeError).

(** [_save_cache]: stamp, copy the present file to the backup, overwrite.
    An exception is logged and swallowed. *)
Definition _save_cache (now : string) (w : World) : World :=
  let w := set_cache (set_last_updated (Some now) (cache w)) w in
  let w := match cache_file w with
           | Some old => set_backup_cache_file (Some old) w
           | None => w
           end in
  let '(written, _) := json_dump (to_serializable (cache w)) in
  set_cache_file (Some written) w.

(** [json.load] on the text of the file. *)
Definition json_load (c : Content) : Result CacheDoc :=
  match c with
  | Document d => Returned d
  | Truncated => Raised JSONDecodeError
  | Garbage _ => Raised JSONDecodeError
  end.

(** [DownloadStatus(value)]. *)
Definition DownloadStatus_of_value (s : string) : Result DownloadStatus :=
  if String.eqb s "pending" then Returned PENDING
  else if String.eqb s "success" then Returned SUCCESS
  else if String.eqb s "failed" then Returned FAILED
  else if String.eqb s "skipped" then Returned SKIPPED
  else Raised ValueError.

(** [FileMetadata.from_dict]: [data['status']] must be present and name a
    status; the constructor call on the dict needs the four fields without
    default and takes no key that is not a field. *)
Definition FileMetadata_from_dict (d : MetaDoc) : Result FileMetadata :=
  st ← match md_status d with
       | Some s => DownloadStatus_of_value s
       | None => Raised KeyError
       end ;
  match md_unknown d, md_url d, md_filename d, md_dataset d, md_discovered_at d with
  | [], Some u, Some name, Some ds, Some disc =>
      Returned (mkFileMetadata u name ds disc (md_last_checked d) st
                  (md_download_path d) (md_file_size d) (md_checksum d)
                  (default 0 (md_download_attempts d)) (md_last_error d)
                  (md_downloaded_at d))
  | _, _, _, _, _ => Raised TypeError
  end.

(** The dict comprehension of [CacheState.from_dict] over the file entries. *)
Definition files_from_dict (docs : gmap string MetaDoc) : Result (gmap string FileMetadata) :=
  map_fold (λ u d acc, m ← acc ; f ← FileMetadata_from_dict d ; Returned (<[u := f]> m))
           (Returned ∅) docs.

Definition CacheState_from_dict (d : CacheDoc) : Result CacheState :=
  fs ← files_from_dict (default ∅ (cd_files d)) ;
  Returned (mkCacheState (default "2.0" (cd_version d)) (cd_created_at d)
              (cd_last_updated d) fs
              (list_to_set (default [] (cd_datasets_scanned d)))
              (default 0 (cd_max_dataset_found d))
              (default 0 (cd_total_discovered d))
              (default 0 (cd_total_downloaded d))
              (default 0 (cd_total_failed d))
              (default 0 (cd_total_skipped d))).

Inductive LogLevel := INFO | WARNING.

(** [_load_cache], with the records it logs. *)
Definition _load_cache (now : string) (w : World) : Result (CacheState * list (LogLevel * string)) :=
  match cache_file w with
  | None => Returned (new_CacheState now, [(INFO, "No cache found, creating new cache state")])
  | Some content =>
      try_except
        (data ← json_load content ;
         c ← CacheState_from_dict data ;
         Returned (c, [(INFO, "Cache loaded")]))
        (λ _, Returned (new_CacheState now, [(WARNING, "Cache corrupted")]))
  end.

(** [UnlimitedEpsteinArchiver()]: the cache of the new object is what
    [_load_cache] gives. *)
Definition archiver_init (now : string) (w : World) : Result World :=
  loaded ← _load_cache now w ;
  Returned (set_cache (fst loaded) w).

(** ** Dataset discoverer *)

(** The variables of the loop of [discover_all_datasets]. *)
Record DiscoverState := mkDiscoverState {
  ds_world : World;
  existing_datasets : list Z;
  consecutive_failures : Z;
  current_dataset : Z
}.

(** One pass through the body of the loop. *)
Definition probe_dataset (server : string → Transport) (now : string)
    (s : DiscoverState) : DiscoverState :=
  let cur := current_dataset s in
  let '(w, response) := _make_request server false (ds_world s) (dataset_url cur) in
  let '(w, existing, failures) :=
    match response with
    | None => (w, existing_datasets s, consecutive_failures s + 1)
    | Some r =>
        if status_code r =? 200 then
          (if max_dataset_found (cache w) <? cur
           then set_cache (set_max_dataset_found cur (cache w)) w else w,
           existing_datasets s ++ [cur], 0)
        else (w, existing_datasets s, consecutive_failures s + 1)
    end in
  let next := cur + 1 in
  let w := if next mod 10 =? 0 then _save_cache now w else w in
  mkDiscoverState w existing failures next.

(** A loop that need not end is run for a number of passes: it has either
    left the loop by then, or it is still inside after that many passes. *)
Inductive LoopRun (S : Type) :=
| Finished (s : S)
| StillRunning (s : S).
Arguments Finished {S} s.
Arguments StillRunning {S} s.

Fixpoint discover_loop (passes : nat) (server : string → Transport) (now : string)
    (max_consecutive_failures : Z) (s : DiscoverState) : LoopRun DiscoverState :=
  if consecutive_failures s <? max_consecutive_failures then
    match passes with
    | O => StillRunning s
    | S passes =>
        discover_loop passes server now max_consecutive_failures
          (probe_dataset server now s)
    end
  else Finished s.

(** [discover_all_datasets]; [None] when the loop is still running after
    [passes] passes. *)
Definition discover_all_datasets (passes : nat) (server : string → Transport)
    (now : string) (w : World) (start_from max_consecutive_failures : Z)
    : option (World * list Z) :=
  match discover_loop passes server now max_consecutive_failures
          (mkDiscoverState w [] 0 start_from) with
  | Finished s => Some (_save_cache now (ds_world s), existing_datasets s)
  | StillRunning _ => None
  end.

(** ** Page walker *)

(** The variables of the loop of [discover_dataset_pages]. *)
Record WalkState := mkWalkState {
  ws_world : World;
  all_files : list FileMetadata;
  page : Z;
  consecutive_empty_pages : Z
}.

Definition max_consecutive_empty : Z := 3.

(** The body of the loop up to [page += 1]; the flag is set when the body
    leaves the loop through [break]. The handler of the [try] counts an
    exception of the extractor as an empty page; the extractor of the
    model raises none. *)
Definition walk_page `{Env} (server : string → Transport) (now : string)
    (dataset_num : Z) (s : WalkState) : WalkState * bool :=
  let u := page_url dataset_num (page s) in
  let '(w, response) := _make_request server false (ws_world s) u in
  match response with
  | None => (mkWalkState w (all_files s) (page s) (consecutive_empty_pages s), true)
  | Some r =>
      if status_code r =? 200 then
        match _extract_file_links (text r) u dataset_num now with
        | [] =>
            (mkWalkState w (all_files s) (page s) (consecutive_empty_pages s + 1), false)
        | found =>
            (mkWalkState w (all_files s ++ unique_by_url ∅ found) (page s) 0, false)
        end
      else if status_code r =? 404 then
        (mkWalkState w (all_files s) (page s) (consecutive_empty_pages s), true)
      else
        (mkWalkState w (all_files s) (page s) (consecutive_empty_pages s + 1), false)
  end.

(** The loop, for at most [passes] passes. *)
Fixpoint walk_loop `{Env} (passes : nat) (server : string → Transport) (now : string)
    (dataset_num max_pages : Z) (s : WalkState) : LoopRun WalkState :=
  if (page s <? max_pages) && (consecutive_empty_pages s <? max_consecutive_empty) then
    match passes with
    | O => StillRunning s
    | S passes =>
        let '(s, broke) := walk_page server now dataset_num s in
        if broke then Finished s
        else walk_loop passes server now dataset_num max_pages
               (mkWalkState (ws_world s) (all_files s) (page s + 1)
                  (consecutive_empty_pages s))
    end
  else Finished s.

(** "Filter out files already in cache": a record whose url is known is
    left out and the cached object is stamped. *)
Fixpoint filter_known (now : string) (c : CacheState) (unique_files : list FileMetadata)
    : CacheState * list FileMetadata :=
  match unique_files with
  | [] => (c, [])
  | f :: rest =>
      match files c !! url f with
      | None => let '(c, new_files) := filter_known now c rest in (c, f :: new_files)
      | Some existing =>
          filter_known now
            (set_files (<[url f := set_last_checked (Some now) existing]> (files c)) c)
            rest
      end
  end.

(** "Add new files to cache". *)
Fixpoint add_new_files (c : CacheState) (new_files : list FileMetadata) : CacheState :=
  match new_files with
  | [] => c
  | f :: rest =>
      add_new_files
        (set_total_discovered (total_discovered c + 1)
           (set_files (<[url f := f]> (files c)) c))
        rest
  end.

(** What follows the loop in [discover_dataset_pages]. *)
Definition merge_files (now : string) (dataset_num : Z) (w : World)
    (found : list FileMetadata) : World * list FileMetadata :=
  let unique_files := unique_by_url ∅ found in
  let '(c, new_files) := filter_known now (cache w) unique_files in
  let c := add_new_files c new_files in
  let c := set_datasets_scanned ({[dataset_num]} ∪ datasets_scanned c) c in
  (_save_cache now (set_cache c w), new_files).

(** The state in which the loop of the page walker is left. The loop ends
    within [max_pages] passes, so the last case is never taken
    ([walk_loop_finishes]). *)
Definition walk_pages `{Env} (server : string → Transport) (now : string)
    (w : World) (dataset_num max_pages : Z) : WalkState :=
  match walk_loop (Z.to_nat max_pages) server now dataset_num max_pages
          (mkWalkState w [] 0 0) with
  | Finished s => s
  | StillRunning s => s
  end.

Definition discover_dataset_pages `{Env} (server : string → Transport) (now : string)
    (w : World) (dataset_num max_pages : Z) : World * list FileMetadata :=
  let s := walk_pages server now w dataset_num max_pages in
  merge_files now dataset_num (ws_world s) (all_files s).

(** ** Run controller *)

(** The counts of the [results] dict of [process_dataset]. *)
Record DatasetResult := mkDatasetResult {
  r_dataset : Z;
  r_total_files : Z;
  r_downloaded : Z;
  r_skipped : Z;
  r_failed : Z;
  r_total_size : Z
}.

(** [download_file] on an object of the list the page walker returned. The
    object is the one stored in the cache under its url, so its present
    state is read from there and the mutation is seen there; an object
    that is not in the cache is mutated on its own. *)
Definition download_object `{Env} (server : string → Transport) (now : string)
    (w : World) (f : FileMetadata) : World * FileMetadata * (bool * option string) :=
  match files (cache w) !! url f with
  | Some m =>
      let '(w, m, res) := download_file server now w m in
      (set_cache (set_files (<[url f := m]> (files (cache w))) (cache w)) w, m, res)
  | None => download_file server now w f
  end.

(** The bookkeeping of one pass of the download loop. *)
Definition count_result (m : FileMetadata) (res : bool * option string)
    (r : DatasetResult) : DatasetResult :=
  match res with
  | (true, _) =>
      mkDatasetResult (r_dataset r) (r_total_files r) (r_downloaded r + 1) (r_skipped r)
        (r_failed r) (r_total_size r + default 0 (file_size m))
  | (false, Some _) =>
      mkDatasetResult (r_dataset r) (r_total_files r) (r_downloaded r) (r_skipped r + 1)
        (r_failed r) (r_total_size r)
  | (false, None) =>
      mkDatasetResult (r_dataset r) (r_total_files r) (r_downloaded r) (r_skipped r)
        (r_failed r + 1) (r_total_size r)
  end.

(** [for i, file_meta in enumerate(files, 1)], from position [i] on;
    [total] is [len(files)]. *)
Fixpoint download_files `{Env} (server : string → Transport) (now : string)
    (total i : Z) (todo : list FileMetadata) (w : World) (r : DatasetResult)
    : World * DatasetResult :=
  match todo with
  | [] => (w, r)
  | f :: todo =>
      let '(w, m, res) := download_object server now w f in
      let r := count_result m res r in
      let w := if (i mod 10 =? 0) || (i =? total) then _save_cache now w else w in
      download_files server now total (i + 1) todo w r
  end.

Definition process_dataset `{Env} (server : string → Transport) (now : string)
    (w : World) (dataset_num : Z) (download : bool) : World * DatasetResult :=
  let '(w, new_files) := discover_dataset_pages server now w dataset_num 1000 in
  let results := mkDatasetResult dataset_num (Z.of_nat (length new_files)) 0 0 0 0 in
  match new_files with
  | [] => (w, results)
  | _ =>
      let '(w, results) :=
        if download
        then download_files server now (Z.of_nat (length new_files)) 1 new_files w results
        else (w, results) in
      (_save_cache now w, results)
  end.

(** The loop of [discover_and_process_all] over the datasets found. *)
Fixpoint process_datasets `{Env} (server : string → Transport) (now : string)
    (download : bool) (datasets : list Z) (w : World) : World * list DatasetResult :=
  match datasets with
  | [] => (w, [])
  | d :: datasets =>
      let '(w, r) := process_dataset server now w d download in
      let '(w, rs) := process_datasets server now download datasets w in
      (w, r :: rs)
  end.

Definition discover_and_process_all `{Env} (passes : nat) (server : string → Transport)
    (now : string) (w : World) (start_dataset : Z) (download : bool)
    : option (World * list DatasetResult) :=
  match discover_all_datasets passes server now w start_dataset 10 with
  | Some (w, all_datasets) => Some (process_datasets server now download all_datasets w)
  | None => None
  end.

(** A path inside one of the directories [raw/dataset*]; the test reads
    the string, so it is meant for resolved paths ([resolved_path]
    below). *)
Definition in_dataset_dir (p : string) : bool :=
  let stem := raw_base_dir +:+ "/dataset" in
  String.prefix stem p &&
  match String.index 0 "/" (String.substring (String.length stem)
                              (String.length p - String.length stem) p) with
  | Some _ => true
  | None => false
  end.

(** [cleanup_all]: every file of every dataset directory is removed, the
    dict and the set of the cache are cleared, the counters are zeroed. *)
Definition cleanup_all (now : string) (w : World) : World :=
  let w := set_payloads (filter (λ kv, in_dataset_dir (fst kv) = false) (payloads w)) w in
  let c := cache w in
  let c := mkCacheState (version c) (created_at c) (last_updated c) ∅ ∅ 0 0 0 0 0 in
  _save_cache now (set_cache c w).

(** The commands of [main] that change the world ([--stats] only reads). *)
Inductive Command :=
| CleanupAll (answer : string)
| DiscoverAll (start_from : Z) (discover_only : bool)
| NoAction.

(** [main] when no interrupt arrives; [None] when the run does not come
    to an end within [passes] passes of the discovery loop. *)
Definition main `{Env} (passes : nat) (server : string → Transport) (now : string)
    (cmd : Command) (w : World) : option World :=
  match archiver_init now w with
  | Raised _ => Some w
  | Returned w =>
      match cmd with
      | CleanupAll answer =>
          if String.eqb answer "y" || String.eqb answer "Y"
          then Some (cleanup_all now w) else Some w
      | DiscoverAll start_from discover_only =>
          fst <$> discover_and_process_all passes server now w start_from (negb discover_only)
      | NoAction => Some w
      end
  end.

(** The clause [except KeyboardInterrupt] of [main]: two lines are
    printed. *)
Definition on_keyboard_interrupt (w : World) : World * list string :=
  (w, ["Process interrupted by user"; "Cache has been saved"]).

(** [main] for [--discover-all] when the interrupt arrives in the
    discovery loop after [passes] passes. The interrupt is no [Exception]:
    it passes every handler below [main]. [None] when the loop is over
    before that. *)
Definition main_interrupted_in_discovery (passes : nat) (server : string → Transport)
    (now : string) (start_from : Z) (w : World) : option (World * list string) :=
  match archiver_init now w with
  | Raised _ => None
  | Returned w =>
      match discover_loop passes server now 10 (mkDiscoverState w [] 0 start_from) with
      | StillRunning s => Some (on_keyboard_interrupt (ds_world s))
      | Finished _ => None
      end
  end.

(** ** Sample pages, servers and worlds *)

(** Pages with single-quoted links, on which only the third pattern of the
    extractor matches, once per link; [sample_scan] is the scan on these
    pages (no link on any other text). *)
Definition page_x : string := "<a href='/epstein/files/a/x.pdf'>x</a>".
Definition page_y : string := "<a href='/epstein/files/a/y.pdf'>y</a>".
Definition page_z : string := "<a href='/epstein/files/a/z.pdf'>z</a>".
Definition page_xx : string :=
  "<a href='/epstein/files/a/x.pdf'>x</a><a href='/epstein/files/b/x.pdf'>x</a>".
Definition page_none : string := "<p>No documents</p>".

Definition url_ax : string := "https://www.justice.gov/epstein/files/a/x.pdf".
Definition url_bx : string := "https://www.justice.gov/epstein/files/b/x.pdf".
Definition url_ay : string := "https://www.justice.gov/epstein/files/a/y.pdf".
Definition url_az : string := "https://www.justice.gov/epstein/files/a/z.pdf".

Definition sample_scan (html page : string) : list (string * string) :=
  if String.eqb html page_x then [(url_ax, "x.pdf")]
  else if String.eqb html page_y then [(url_ay, "y.pdf")]
  else if String.eqb html page_z then [(url_az, "z.pdf")]
  else if String.eqb html page_xx then [(url_ax, "x.pdf"); (url_bx, "x.pdf")]
  else [].

Definition sample_env : Env :=
  {| scan_links := sample_scan;
     md5_hexdigest := λ _, "d41d8cd98f00b204e9800998ecf8427e" |}.

Fixpoint padding (n : nat) : string :=
  match n with
  | O => ""
  | S n => " " +:+ padding n
  end.

(** A body of 1024 bytes with the signature, and one of 8 bytes. *)
Definition pdf_body : string := "%PDF-" +:+ padding 1019.
Definition short_pdf_body : string := "%PDF-1.4".

Definition empty_world : World := mkWorld (new_CacheState "t0") ∅ None None [].

(** Dataset 7 has pages with files, files, none, none, none, files. *)
Definition server_pages (u : string) : Transport :=
  if String.eqb u (page_url 7 0) then Reply 200 page_x
  else if String.eqb u (page_url 7 1) then Reply 200 page_y
  else if String.eqb u (page_url 7 2) then Reply 200 page_none
  else if String.eqb u (page_url 7 3) then Reply 200 page_none
  else if String.eqb u (page_url 7 4) then Reply 200 page_none
  else if String.eqb u (page_url 7 5) then Reply 200 page_z
  else Reply 404 "".

(** Datasets 1, 2 and 3 exist, every other url is not found. *)
Definition server_123 (u : string) : Transport :=
  if String.eqb u (dataset_url 1) then Reply 200 page_none
  else if String.eqb u (dataset_url 2) then Reply 200 page_none
  else if String.eqb u (dataset_url 3) then Reply 200 page_none
  else Reply 404 "".

(** Page 0 of dataset 7 times out, page 1 has a file. *)
Definition server_timeout (u : string) : Transport :=
  if String.eqb u (page_url 7 0) then TimedOut
  else if String.eqb u (page_url 7 1) then Reply 200 page_y
  else Reply 404 "".

(** Dataset 1 alone exists; its one page lists two files of the same
    name, both served whole. *)
Definition server_same_name (u : string) : Transport :=
  if String.eqb u (dataset_url 1) then Reply 200 page_xx
  else if String.eqb u url_ax then Reply 200 pdf_body
  else if String.eqb u url_bx then Reply 200 pdf_body
  else Reply 404 "".

(** Dataset 1 alone exists; its one page lists one file. *)
Definition server_one_file (u : string) : Transport :=
  if String.eqb u (dataset_url 1) then Reply 200 page_x
  else if String.eqb u url_ax then Reply 200 pdf_body
  else Reply 404 "".

(** Every url answers 200 with a page without links. *)
Definition server_always_ok (u : string) : Transport := Reply 200 page_none.

(** A pending record of dataset 1, and a world in which a file of its name
    with 8 bytes lies in the dataset directory. *)
Definition record_x : FileMetadata :=
  mkFileMetadata url_ax "x.pdf" 1 "t0" None PENDING None None None 0 None None.

Definition world_short_local : World :=
  mkWorld (set_files {[url_ax := record_x]} (new_CacheState "t0"))
    {[path_join (_get_dataset_dir 1) "x.pdf" := short_pdf_body]} None None [].

(** ** Vocabulary of the properties *)

(** Page [p] of dataset [d] answers 200 and the extractor finds no link,
    respectively at least one link, on it. *)
Definition empty_page `{Env} (server : string → Transport) (d p : Z) : Prop :=
  ∃ body, server (page_url d p) = Reply 200 body
          ∧ scan_links body (page_url d p) = [].

Definition page_with_files `{Env} (server : string → Transport) (d p : Z) : Prop :=
  ∃ body, server (page_url d p) = Reply 200 body
          ∧ scan_links body (page_url d p) ≠ [].

(** The world after the urls [us] have been requested, nothing else
    having changed. *)
Definition after_requests (us : list string) (w : World) : World :=
  set_requests (requests w ++ us) w.

(** The probe of dataset [d] is answered with 200. *)
Definition dataset_exists (server : string → Transport) (d : Z) : bool :=
  match server (dataset_url d) with
  | Reply code _ => code =? 200
  | _ => false
  end.

(** The datasets [d], ..., [d + n - 1] all fail the probe. *)
Definition failing_window (server : string → Transport) (d : Z) (n : Z) : Prop :=
  ∀ i, d ≤ i < d + n → dataset_exists server i = false.

(** The discovery loop comes to an end. *)
Definition discovery_ends (server : string → Transport) (now : string) (w : World)
    (start_from max_consecutive_failures : Z) : Prop :=
  ∃ passes, is_Some (discover_all_datasets passes server now w start_from
                       max_consecutive_failures).

(** The number of records of a given status. *)
Definition count_status (st : DownloadStatus) (fs : gmap string FileMetadata) : Z :=
  Z.of_nat (size (filter (λ kv, status (snd kv) = st) fs)).

(** What one record adds to the number of records of status [st]. *)
Definition tally (st : DownloadStatus) (m : FileMetadata) : Z :=
  if decide (status m = st) then 1 else 0.

(** The three download counters of two caches agree. *)
Definition same_download_counters (c c' : CacheState) : Prop :=
  total_downloaded c' = total_downloaded c
  ∧ total_failed c' = total_failed c
  ∧ total_skipped c' = total_skipped c.

(** The counters as sums over the records by status. *)
Definition counters_by_status (c : CacheState) : Prop :=
  total_downloaded c = count_status SUCCESS (files c)
  ∧ total_failed c = count_status FAILED (files c)
  ∧ total_skipped c = count_status SKIPPED (files c).

(** The counters as the code keeps them: a file fetched and a file
    verified in place are both marked [SUCCESS], and no record is ever
    marked [SKIPPED]. *)
Definition counters_by_event (c : CacheState) : Prop :=
  total_downloaded c + total_skipped c = count_status SUCCESS (files c)
  ∧ total_failed c = count_status FAILED (files c)
  ∧ count_status SKIPPED (files c) = 0.

(** The records the driver hands to [download_file]: [process_dataset]
    downloads the records its page walk has just added, which are pending
    ([process_dataset_reachable]). *)
Definition is_pending (m : FileMetadata) : Prop := status m = PENDING.

(** Any record may be downloaded. *)
Definition any_record (m : FileMetadata) : Prop := True.

(** The states the operations of the program lead to from an empty cache:
    a page walk with its merge, a download of a record of the cache that
    [may_download] admits, a save, a cleanup. *)
Inductive reachable `{Env} (may_download : FileMetadata → Prop) : World → Prop :=
| reach_empty now disk cf bf rq :
    reachable may_download (mkWorld (new_CacheState now) disk cf bf rq)
| reach_walk server now d max_pages w :
    reachable may_download w →
    reachable may_download (fst (discover_dataset_pages server now w d max_pages))
| reach_download server now f m w :
    reachable may_download w →
    files (cache w) !! url f = Some m →
    may_download m →
    reachable may_download (fst (fst (download_object server now w f)))
| reach_save now w :
    reachable may_download w →
    reachable may_download (_save_cache now w)
| reach_cleanup now w :
    reachable may_download w →
    reachable may_download (cleanup_all now w).

(** The states between the commands of a run: whole calls of
    [process_dataset] and of [cleanup_all]. *)
Inductive run_reachable `{Env} : World → Prop :=
| run_empty now disk cf bf rq :
    run_reachable (mkWorld (new_CacheState now) disk cf bf rq)
| run_process server now d download w :
    run_reachable w →
    run_reachable (fst (process_dataset server now w d download))
| run_cleanup now w :
    run_reachable w →
    run_reachable (cleanup_all now w).

(** ** Further vocabulary *)




(** The two paths [download_file] works on for a record. *)
Definition final_path (m : FileMetadata) : string :=
  path_join (_get_dataset_dir (dataset m)) (filename m).

Definition temp_path (m : FileMetadata) : string :=
  path_join (_get_dataset_dir (dataset m)) (filename m +:+ ".tmp").


(** A file entry of a cache document that [FileMetadata.from_dict]
    accepts. *)
Definition entry_accepted (e : MetaDoc) : bool :=
  match md_status e with
  | Some s =>
      (String.eqb s "pending" || String.eqb s "success" || String.eqb s "failed"
       || String.eqb s "skipped")
      && match md_unknown e, md_url e, md_filename e, md_dataset e, md_discovered_at e with
         | [], Some _, Some _, Some _, Some _ => true
         | _, _, _, _, _ => false
         end
  | None => false
  end.

(** A cache without records, as a first run saves it after probing
    datasets, and a cache document with one file entry that lacks its
    status. *)
Definition world_scanned : World :=
  mkWorld (mkCacheState "2.0" (Some "t0") (Some "t0") ∅ {[1; 2]} 2 0 0 0 0)
    ∅ None None [].

Definition doc_missing_status : CacheDoc :=
  mkCacheDoc (Some "2.0") (Some "t0") (Some "t0")
    (Some {[url_ax := mkMetaDoc (Some url_ax) (Some "x.pdf") (Some 1) (Some "t0")
                        None None None None None None None None []]})
    (Some [1]) (Some 1) (Some 1) (Some 0) (Some 0) (Some 0).

(** The same document with the status of the entry written as its text. *)
Definition doc_with_status : CacheDoc :=
  mkCacheDoc (Some "2.0") (Some "t0") (Some "t0")
    (Some {[url_ax := mkMetaDoc (Some url_ax) (Some "x.pdf") (Some 1) (Some "t0")
                        None (Some "success") None None None None None None []]})
    (Some [1]) (Some 1) (Some 1) (Some 0) (Some 0) (Some 0).

(** A server that answers every url with 8 bytes that begin with the
    signature, and one that answers every url with 500. *)
Definition server_short_body (u : string) : Transport := Reply 200 short_pdf_body.
Definition server_error (u : string) : Transport := Reply 500 "".

(** A world with the pending record [record_x] in the cache and nothing on
    disk. *)
Definition world_pending : World :=
  mkWorld (set_files {[url_ax := record_x]} (new_CacheState "t0")) ∅ None None [].

(** A plain file name: not empty, neither [.] nor [..], and without a
    separator. The file of such a name lies directly inside the dataset
    directory, which [_get_dataset_dir] has created, so [open] finds its
    directory and the string [path_join] builds is the path the operating
    system resolves. For any other name (a separator or [..] left by
    [unquote], an absolute name) the strings of the model need not name the
    file that is touched, and [open] can fail; what is said about the disk
    is said for plain names. *)
Definition plain_name (name : string) : bool :=
  negb (String.eqb name "") && negb (String.eqb name ".") && negb (String.eqb name "..")
  && match String.index 0 "/" name with
     | Some _ => false
     | None => true
     end.

Definition has_substring (t p : string) : bool :=
  match String.index 0 t p with
  | Some _ => true
  | None => false
  end.

Definition ends_with (t p : string) : bool :=
  String.eqb (String.substring (String.length p - String.length t) (String.length t) p) t.

(** The resolved absolute path of a file: it begins at the root and has no
    empty component, no [.] and no [..]. Two such paths that differ name
    different files. *)
Definition resolved_path (p : string) : bool :=
  String.prefix "/" p
  && negb (has_substring "//" p) && negb (has_substring "/./" p)
  && negb (has_substring "/../" p)
  && negb (ends_with "/" p) && negb (ends_with "/." p) && negb (ends_with "/.." p).

(** The cache file holds what [json.dump] wrote of the cache in memory at
    the last save: the whole document when the cache has no record, the
    truncated text otherwise. *)
Definition cache_file_current (w : World) : Prop :=
  cache_file w = Some (fst (json_dump (to_serializable (cache w)))).

(** ** The transport and the cache store leave the rest alone *)

Lemma make_request_world server stream w u :
  fst (_make_request server stream w u) = after_requests [u] w.
Proof.
  unfold _make_request.
  destruct (server u) as [code body|code rcv| |]; simpl;
    repeat (case_match; simpl); reflexivity.
Qed.

Lemma after_requests_app us vs w :
  after_requests vs (after_requests us w) = after_requests (us ++ vs) w.
Proof.
  destruct w; unfold after_requests, set_requests; simpl.
  by rewrite <- app_assoc.
Qed.

Lemma after_requests_nil w : after_requests [] w = w.
Proof. destruct w; unfold after_requests, set_requests; simpl. by rewrite app_nil_r. Qed.

Lemma save_cache_cache now w :
  cache (_save_cache now w) = set_last_updated (Some now) (cache w).
Proof.
  destruct w as [c p [f|] b r]; unfold _save_cache; simpl;
    destruct (json_dump _); reflexivity.
Qed.

Lemma save_cache_payloads now w : payloads (_save_cache now w) = payloads w.
Proof.
  destruct w as [c p [f|] b r]; unfold _save_cache; simpl;
    destruct (json_dump _); reflexivity.
Qed.

Lemma save_cache_requests now w : requests (_save_cache now w) = requests w.
Proof.
  destruct w as [c p [f|] b r]; unfold _save_cache; simpl;
    destruct (json_dump _); reflexivity.
Qed.

(** ** Page walker: the counter of empty pages *)

Section PageWalk.
Context `{Env} (server : string → Transport) (now : string) (d max_pages : Z).

Lemma walk_page_empty s :
  empty_page server d (page s) →
  walk_page server now d s =
    (mkWalkState (after_requests [page_url d (page s)] (ws_world s)) (all_files s)
       (page s) (consecutive_empty_pages s + 1), false).
Proof.
  intros (body & Hsrv & Hscan).
  unfold walk_page, _make_request, _extract_file_links.
  rewrite Hsrv. simpl. rewrite Hscan. reflexivity.
Qed.

Lemma walk_page_files s :
  page_with_files server d (page s) →
  ∃ found, found ≠ [] ∧
    walk_page server now d s =
      (mkWalkState (after_requests [page_url d (page s)] (ws_world s))
         (all_files s ++ unique_by_url ∅ found) (page s) 0, false).
Proof.
  intros (body & Hsrv & Hscan).
  exists (_extract_file_links body (page_url d (page s)) d now). split.
  - unfold _extract_file_links.
    destruct (scan_links body (page_url d (page s))); done.
  - unfold walk_page, _make_request. rewrite Hsrv.
    cbn -[_extract_file_links unique_by_url].
    destruct (_extract_file_links body (page_url d (page s)) d now) eqn:E;
      [|reflexivity].
    unfold _extract_file_links in E.
    destruct (scan_links body (page_url d (page s))) as [|[??]]; done.
Qed.

Lemma walk_loop_at_threshold passes s :
  max_consecutive_empty ≤ consecutive_empty_pages s →
  walk_loop passes server now d max_pages s = Finished s.
Proof.
  intros Hc. destruct passes; simpl;
    replace (consecutive_empty_pages s <? max_consecutive_empty) with false
      by (symmetry; apply Z.ltb_ge; exact Hc);
    rewrite andb_false_r; reflexivity.
Qed.

(** From any point of the walk: when the next pages are empty until the
    counter is at 3, exactly these pages are requested and the loop is
    left. *)
Lemma walk_loop_empty_run (k : nat) : ∀ passes s,
  consecutive_empty_pages s + Z.of_nat k = max_consecutive_empty →
  page s + Z.of_nat k ≤ max_pages →
  (k ≤ passes)%nat →
  (∀ i, 0 ≤ i < Z.of_nat k → empty_page server d (page s + i)) →
  walk_loop passes server now d max_pages s =
    Finished (mkWalkState
                (after_requests (page_url d <$> seqZ (page s) (Z.of_nat k)) (ws_world s))
                (all_files s) (page s + Z.of_nat k) max_consecutive_empty).
Proof.
  induction k as [|k IH]; intros passes s Hc Hp Hk Hempty.
  - rewrite walk_loop_at_threshold by lia.
    simpl. rewrite after_requests_nil.
    destruct s; simpl in *. f_equal. f_equal; lia.
  - destruct passes as [|passes]; [lia|].
    rewrite Nat2Z.inj_succ in *.
    cbn [walk_loop].
    replace (page s <? max_pages) with true by (symmetry; apply Z.ltb_lt; lia).
    replace (consecutive_empty_pages s <? max_consecutive_empty) with true
      by (symmetry; apply Z.ltb_lt; lia).
    cbn [andb].
    rewrite walk_page_empty by (replace (page s) with (page s + 0) by lia; apply Hempty; lia).
    cbn [ws_world all_files page consecutive_empty_pages].
    rewrite IH; cbn [ws_world all_files page consecutive_empty_pages]; try lia.
    + rewrite after_requests_app.
      rewrite (seqZ_cons (page s)) by lia. rewrite Z.pred_succ.
      rewrite fmap_cons.
      replace (Z.succ (page s)) with (page s + 1) by lia.
      f_equal. f_equal. lia.
    + intros i Hi. replace (page s + 1 + i) with (page s + (1 + i)) by lia.
      apply Hempty. lia.
Qed.
End PageWalk.

(** C2. On an Ok page without links the page walker adds one to the
    counter of consecutive empty pages, on a page with at least one link it
    sets the counter to 0, and once the counter is at 3 the loop is left
    without another request: from any point of a walk, empty pages up to
    the count of 3 are the last pages requested. For pages with files,
    files, none, none, none, files the walk requests pages 0 to 4 and never
    page 5. *)
Theorem page_walk_stops_after_three_empty_pages `{Env}
    (server : string → Transport) (now : string) (d max_pages : Z) :
  (∀ s, empty_page server d (page s) →
     ∃ s', walk_page server now d s = (s', false)
           ∧ consecutive_empty_pages s' = consecutive_empty_pages s + 1)
  ∧ (∀ s, page_with_files server d (page s) →
     ∃ s', walk_page server now d s = (s', false)
           ∧ consecutive_empty_pages s' = 0)
  ∧ (∀ passes s, 3 ≤ consecutive_empty_pages s →
     walk_loop passes server now d max_pages s = Finished s)
  ∧ (∀ (k : nat) passes s,
       consecutive_empty_pages s + Z.of_nat k = 3 →
       page s + Z.of_nat k ≤ max_pages →
       (k ≤ passes)%nat →
       (∀ i, 0 ≤ i < Z.of_nat k → empty_page server d (page s + i)) →
       walk_loop passes server now d max_pages s =
         Finished (mkWalkState
                     (after_requests (page_url d <$> seqZ (page s) (Z.of_nat k))
                        (ws_world s))
                     (all_files s) (page s + Z.of_nat k) 3))
  ∧ requests (ws_world (walk_pages (H:=sample_env) server_pages now empty_world 7 1000))
      = page_url 7 <$> [0; 1; 2; 3; 4]
  ∧ page_url 7 5 ∉
      requests (ws_world (walk_pages (H:=sample_env) server_pages now empty_world 7 1000)).
Proof.
  split; [|split; [|split; [|split; [|split]]]].
  - intros s He. rewrite (walk_page_empty server now d s He). eauto.
  - intros s Hf. destruct (walk_page_files server now d s Hf) as (found & _ & ->). eauto.
  - intros passes s Hc. by apply walk_loop_at_threshold.
  - intros k passes s. apply walk_loop_empty_run.
  - vm_compute. reflexivity.
  - intros Hin. vm_compute in Hin.
    repeat (apply elem_of_cons in Hin as [Hin|Hin]; [discriminate Hin|]).
    by apply elem_of_nil in Hin.
Qed.

Lemma page_walk_stops_after_three_empty_pages_witness :
  let s2 := mkWalkState empty_world [] 2 0 in
  let s0 := mkWalkState empty_world [] 0 2 in
  (∃ s', walk_page (H:=sample_env) server_pages "t1" 7 s2 = (s', false)
         ∧ consecutive_empty_pages s' = 1)
  ∧ (∃ s', walk_page (H:=sample_env) server_pages "t1" 7 s0 = (s', false)
         ∧ consecutive_empty_pages s' = 0)
  ∧ walk_loop (H:=sample_env) 5 server_pages "t1" 7 1000 (mkWalkState empty_world [] 5 3)
      = Finished (mkWalkState empty_world [] 5 3)
  ∧ walk_loop (H:=sample_env) 5 server_pages "t1" 7 1000 s2
      = Finished (mkWalkState
                    (after_requests (page_url 7 <$> seqZ 2 (Z.of_nat 3)) empty_world)
                    [] (2 + Z.of_nat 3) 3).
Proof.
  intros s2 s0.
  destruct (page_walk_stops_after_three_empty_pages (H:=sample_env)
              server_pages "t1" 7 1000) as (Hinc & Hreset & Hstop & Hrun & _).
  split; [|split; [|split]].
  - apply (Hinc s2). exists page_none. split; reflexivity.
  - apply (Hreset s0). exists page_x. split; [reflexivity|discriminate].
  - apply (Hstop 5%nat (mkWalkState empty_world [] 5 3)). simpl. lia.
  - apply (Hrun 3%nat 5%nat s2); simpl; try lia.
    intros i Hi. exists page_none.
    assert (i = 0 ∨ i = 1 ∨ i = 2) as [->|[->| ->]] by lia; split; reflexivity.
Defined.

(** ** Dataset discoverer: the list of datasets and the counter of failures *)

Lemma filter_seqZ_sorted (P : Z → Prop) `{!∀ x, Decision (P x)} m (n : nat) :
  StronglySorted Z.lt (filter P (seqZ m (Z.of_nat n))).
Proof.
  induction n as [|n IH].
  - simpl. constructor.
  - rewrite seqZ_S, filter_app. apply StronglySorted_app. split; [|split].
    + intros x1 x2 H1 H2.
      apply list_elem_of_filter in H1 as [_ H1]. apply elem_of_seqZ in H1.
      apply list_elem_of_filter in H2 as [_ H2]. apply list_elem_of_singleton in H2.
      lia.
    + exact IH.
    + rewrite filter_cons. case_decide; repeat constructor.
Qed.

Section Discovery.
Context (server : string → Transport) (now : string) (threshold : Z).

(** The loop variables after one pass. *)
Lemma probe_dataset_vars s :
  existing_datasets (probe_dataset server now s) =
    existing_datasets s ++
      (if dataset_exists server (current_dataset s) then [current_dataset s] else [])
  ∧ consecutive_failures (probe_dataset server now s) =
      (if dataset_exists server (current_dataset s) then 0
       else consecutive_failures s + 1)
  ∧ current_dataset (probe_dataset server now s) = current_dataset s + 1.
Proof.
  unfold probe_dataset, _make_request, dataset_exists.
  destruct (server (dataset_url (current_dataset s))) as [code body|code rcv| |];
    simpl; rewrite ?app_nil_r; try done.
  destruct (code =? 403) eqn:E403; simpl.
  - apply Z.eqb_eq in E403 as ->. simpl. by rewrite app_nil_r.
  - destruct (code =? 200); simpl; by rewrite ?app_nil_r.
Qed.

Lemma discover_loop_more_passes passes : ∀ extra s s',
  discover_loop passes server now threshold s = Finished s' →
  discover_loop (passes + extra) server now threshold s = Finished s'.
Proof.
  induction passes as [|passes IH]; intros extra s s'; simpl.
  - destruct (consecutive_failures s <? threshold) eqn:E; [done|].
    intros Hs. destruct extra; simpl; by rewrite E.
  - destruct (consecutive_failures s <? threshold); [|done]. apply IH.
Qed.

(** What the loop has done when it is left: it has probed [n] ids from
    the start on, kept those that exist, and the last ids probed, as many
    as the counter tells, have all failed. *)
Lemma discover_loop_finished passes : ∀ s s',
  0 ≤ consecutive_failures s →
  failing_window server (current_dataset s - consecutive_failures s)
    (consecutive_failures s) →
  discover_loop passes server now threshold s = Finished s' →
  ∃ n : nat,
    current_dataset s' = current_dataset s + Z.of_nat n
    ∧ existing_datasets s' =
        existing_datasets s ++
          filter (λ d, dataset_exists server d) (seqZ (current_dataset s) (Z.of_nat n))
    ∧ threshold ≤ consecutive_failures s'
    ∧ 0 ≤ consecutive_failures s' ≤ consecutive_failures s + Z.of_nat n
    ∧ failing_window server (current_dataset s' - consecutive_failures s')
        (consecutive_failures s').
Proof.
  induction passes as [|passes IH]; intros s s' Hcf Hwin; simpl;
    destruct (consecutive_failures s <? threshold) eqn:E; try done.
  - intros [= <-]. exists 0%nat. simpl. rewrite app_nil_r, !Z.add_0_r.
    apply Z.ltb_ge in E. repeat split; try done; lia.
  - intros Hrun.
    destruct (probe_dataset_vars s) as (Hex & Hfail & Hcur).
    apply IH in Hrun as (n & Hn & Hl & Hthr & Hpos & Hw).
    + exists (S n). split; [rewrite Hn, Hcur; lia|]. split.
      2:{ repeat split; try done; try lia. rewrite Hfail in Hpos.
          destruct (dataset_exists server (current_dataset s)); lia. }
      rewrite Hl, Hex, Hcur.
      rewrite Nat2Z.inj_succ, (seqZ_cons (current_dataset s)) by lia.
      rewrite Z.pred_succ, filter_cons, <- app_assoc.
      replace (Z.succ (current_dataset s)) with (current_dataset s + 1) by lia.
      destruct (dataset_exists server (current_dataset s)); simpl; done.
    + rewrite Hfail. destruct (dataset_exists server (current_dataset s)); lia.
    + rewrite Hfail, Hcur. intros i Hi.
      destruct (dataset_exists server (current_dataset s)) eqn:Ex; [lia|].
      destruct (decide (i = current_dataset s)) as [->|Hne]; [done|].
      apply Hwin. lia.
  - intros [= <-]. exists 0%nat. simpl. rewrite app_nil_r, !Z.add_0_r.
    apply Z.ltb_ge in E. repeat split; try done; lia.
Qed.

(** The loop is left within [d0 + threshold - current] passes when the
    ids [d0], ..., [d0 + threshold - 1] all fail. *)
Lemma discover_loop_ends_at_window d0 passes : ∀ s,
  failing_window server d0 threshold →
  0 ≤ consecutive_failures s →
  current_dataset s ≤ d0
  ∨ current_dataset s - d0 ≤ consecutive_failures s →
  d0 + threshold - current_dataset s ≤ Z.of_nat passes →
  ∃ s', discover_loop passes server now threshold s = Finished s'.
Proof.
  intros s Hwin. revert s.
  induction passes as [|passes IH]; intros s Hcf Hpos Hpasses; simpl;
    destruct (consecutive_failures s <? threshold) eqn:E; eauto;
    apply Z.ltb_lt in E.
  - lia.
  - destruct (probe_dataset_vars s) as (_ & Hfail & Hcur).
    apply IH; rewrite ?Hfail, ?Hcur.
    + destruct (dataset_exists server (current_dataset s)); lia.
    + destruct (decide (current_dataset s < d0)); [lia|]. right.
      rewrite Hwin by lia. lia.
    + lia.
Qed.
End Discovery.

(** C3, amended. [discover_all_datasets] resets the counter of failures
    on a 200, adds one on every other outcome, and leaves the loop when the
    counter is at the threshold. Whenever it returns, the list holds the
    ids that exist among those probed, in strictly ascending order, and
    (for a positive threshold) the server has failed the threshold number
    of ids in a row; it does return when the server fails that many ids in
    a row somewhere from the start on. With datasets 1, 2, 3 and nothing
    else, the threshold 10 and the start 1 the list is [1; 2; 3]. *)
Theorem discover_all_datasets_ascending
    (server : string → Transport) (now : string) (w : World) (start threshold : Z) :
  (∀ s,
     existing_datasets (probe_dataset server now s) =
       existing_datasets s ++
         (if dataset_exists server (current_dataset s) then [current_dataset s] else [])
     ∧ consecutive_failures (probe_dataset server now s) =
         (if dataset_exists server (current_dataset s) then 0
          else consecutive_failures s + 1)
     ∧ current_dataset (probe_dataset server now s) = current_dataset s + 1)
  ∧ (∀ passes s, threshold ≤ consecutive_failures s →
       discover_loop passes server now threshold s = Finished s)
  ∧ (∀ passes w' l,
       discover_all_datasets passes server now w start threshold = Some (w', l) →
       StronglySorted Z.lt l
       ∧ ∃ n : nat,
           l = filter (λ d, dataset_exists server d) (seqZ start (Z.of_nat n))
           ∧ (0 < threshold →
              threshold ≤ Z.of_nat n
              ∧ failing_window server (start + Z.of_nat n - threshold) threshold))
  ∧ (∀ d0, start ≤ d0 → failing_window server d0 threshold →
       discovery_ends server now w start threshold)
  ∧ (∀ passes, (13 ≤ passes)%nat →
       snd <$> discover_all_datasets passes server_123 now empty_world 1 10
         = Some [1; 2; 3]).
Proof.
  split; [|split; [|split; [|split]]].
  - apply probe_dataset_vars.
  - intros passes s Hc.
    destruct passes; simpl;
      (replace (consecutive_failures s <? threshold) with false
         by (symmetry; apply Z.ltb_ge; exact Hc)); reflexivity.
  - intros passes w' l. unfold discover_all_datasets.
    destruct (discover_loop _ _ _ _ _) as [s'|] eqn:Hrun; [|done].
    intros [= _ <-].
    apply discover_loop_finished in Hrun as (n & Hn & Hl & Hthr & Hpos & Hw);
      simpl in *; [| lia | intros i Hi; lia].
    rewrite Hl. split; [apply filter_seqZ_sorted|].
    exists n. split; [done|]. intros Ht. split; [lia|].
    intros i Hi. apply Hw. lia.
  - intros d0 Hd0 Hwin.
    destruct (discover_loop_ends_at_window server now threshold d0
                (Z.to_nat (d0 + threshold - start))
                (mkDiscoverState w [] 0 start) Hwin) as [s' Hs']; simpl; try lia.
    exists (Z.to_nat (d0 + threshold - start)).
    unfold discover_all_datasets. rewrite Hs'. eauto.
  - intros passes Hp. replace passes with (13 + (passes - 13))%nat by lia.
    unfold discover_all_datasets.
    destruct (discover_loop 13 server_123 now 10 (mkDiscoverState empty_world [] 0 1))
      as [s'|s'] eqn:Hrun; [|vm_compute in Hrun; discriminate Hrun].
    rewrite (discover_loop_more_passes _ _ _ _ _ _ _ Hrun). simpl.
    vm_compute in Hrun. injection Hrun as <-. reflexivity.
Qed.

Lemma discover_all_datasets_ascending_witness :
  ∃ w' l,
    discover_all_datasets 13 server_123 "t1" empty_world 1 10 = Some (w', l)
    ∧ StronglySorted Z.lt l
    ∧ discover_loop 0 server_123 "t1" 10 (mkDiscoverState empty_world [] 10 14)
        = Finished (mkDiscoverState empty_world [] 10 14)
    ∧ discovery_ends server_123 "t1" empty_world 1 10
    ∧ snd <$> discover_all_datasets 13 server_123 "t1" empty_world 1 10 = Some [1; 2; 3].
Proof.
  destruct (discover_all_datasets 13 server_123 "t1" empty_world 1 10)
    as [[w' l]|] eqn:E; [|vm_compute in E; discriminate E].
  exists w', l. split; [reflexivity|].
  destruct (discover_all_datasets_ascending server_123 "t1" empty_world 1 10)
    as (_ & Hstop & Hret & Hends & Hex).
  split; [apply (Hret 13%nat w' l E)|].
  split; [apply (Hstop 0%nat (mkDiscoverState empty_world [] 10 14)); simpl; lia|].
  split.
  - apply (Hends 4); [lia|]. intros i Hi.
    assert (i = 4 ∨ i = 5 ∨ i = 6 ∨ i = 7 ∨ i = 8 ∨ i = 9 ∨ i = 10 ∨ i = 11
            ∨ i = 12 ∨ i = 13) as Hcases by lia.
    repeat (destruct Hcases as [->|Hcases]; [vm_compute; reflexivity|]).
    subst i. vm_compute. reflexivity.
  - rewrite <- E. apply (Hex 13%nat). lia.
Defined.

(** ** Termination *)

Section WalkBound.
Context `{Env} (server : string → Transport) (now : string) (d max_pages : Z).

Lemma walk_page_frame s :
  ws_world (fst (walk_page server now d s))
    = after_requests [page_url d (page s)] (ws_world s)
  ∧ page (fst (walk_page server now d s)) = page s.
Proof.
  unfold walk_page.
  pose proof (make_request_world server false (ws_world s) (page_url d (page s))) as Hw.
  destruct (_make_request _ _ _ _) as [w r]. simpl in Hw. subst w.
  destruct r as [r|]; [|done].
  destruct (status_code r =? 200).
  - destruct (_extract_file_links _ _ _ _); done.
  - destruct (status_code r =? 404); done.
Qed.

(** The loop of the page walker is left within [max_pages - page]
    passes, having requested consecutive pages below [max_pages]. *)
Lemma walk_loop_finishes passes : ∀ s,
  max_pages - page s ≤ Z.of_nat passes →
  ∃ s' (k : nat),
    walk_loop passes server now d max_pages s = Finished s'
    ∧ Z.of_nat k ≤ Z.max 0 (max_pages - page s)
    ∧ ws_world s' =
        after_requests (page_url d <$> seqZ (page s) (Z.of_nat k)) (ws_world s).
Proof.
  induction passes as [|passes IH]; intros s Hp; simpl;
    destruct ((page s <? max_pages) && (consecutive_empty_pages s <? max_consecutive_empty))
      eqn:E.
  - apply andb_prop in E as [E _]. apply Z.ltb_lt in E. lia.
  - exists s, 0%nat. simpl. rewrite after_requests_nil. split; [done|]. split; [lia|done].
  - apply andb_prop in E as [E _]. apply Z.ltb_lt in E.
    destruct (walk_page_frame s) as [Hw Hpage].
    destruct (walk_page server now d s) as [s1 broke]. simpl in Hw, Hpage.
    destruct broke.
    + exists s1, 1%nat. split; [done|]. split; [lia|]. rewrite Hw. done.
    + destruct (IH (mkWalkState (ws_world s1) (all_files s1) (page s1 + 1)
                      (consecutive_empty_pages s1))) as (s' & k & Hrun & Hk & Hreq);
        simpl; [lia|].
      exists s', (S k). split; [done|]. split; [simpl in Hk; lia|].
      rewrite Hreq. simpl. rewrite Hw, after_requests_app, Hpage.
      rewrite Nat2Z.inj_succ, (seqZ_cons (page s)) by lia.
      rewrite Z.pred_succ, fmap_cons.
      replace (Z.succ (page s)) with (page s + 1) by lia. done.
  - exists s, 0%nat. simpl. rewrite after_requests_nil. split; [done|]. split; [lia|done].
Qed.
End WalkBound.

(** Against a server on which every dataset exists the discovery loop is
    never left. *)
Lemma discover_loop_never_ends server now threshold passes : ∀ s,
  (∀ d, dataset_exists server d = true) →
  0 < threshold →
  consecutive_failures s < threshold →
  ∃ s', discover_loop passes server now threshold s = StillRunning s'.
Proof.
  induction passes as [|passes IH]; intros s Hall Hthr Hcf; simpl;
    (replace (consecutive_failures s <? threshold) with true
       by (symmetry; apply Z.ltb_lt; exact Hcf)); [eauto|].
  apply IH; [done..|].
  destruct (probe_dataset_vars server now s) as (_ & -> & _).
  by rewrite Hall.
Qed.

(** Where dataset discovery ends, the run as a whole ends: the datasets
    found are a finite list and every page walk is bounded. *)
Lemma run_ends_with_discovery `{Env} passes server now w start download :
  is_Some (discover_and_process_all passes server now w start download)
  ↔ is_Some (discover_all_datasets passes server now w start 10).
Proof.
  unfold discover_and_process_all.
  destruct (discover_all_datasets passes server now w start 10) as [[w' l]|].
  - split; eauto.
  - split; intros [? ?]; done.
Qed.

(** The claim of C3 fails as it is worded, for every server: against the
    server on which every dataset exists [discover_all_datasets] returns
    no list, from whatever id it starts and however long it runs. *)
Lemma discover_all_datasets_returns_no_list :
  ¬ ∃ passes start w' l,
      discover_all_datasets passes server_always_ok "t1" empty_world start 10
        = Some (w', l).
Proof.
  intros (passes & start & w' & l & Hr). unfold discover_all_datasets in Hr.
  destruct (discover_loop_never_ends server_always_ok "t1" 10 passes
              (mkDiscoverState empty_world [] 0 start)) as [s' Hs']; simpl; try lia.
  - intros d. reflexivity.
  - rewrite Hs' in Hr. discriminate Hr.
Qed.

(** The claim of C7 fails: against the server on which every dataset
    exists, discovery from 1 with the threshold 10 does not end. *)
Lemma discovery_runs_forever :
  ¬ discovery_ends server_always_ok "t1" empty_world 1 10.
Proof.
  intros [passes [r Hr]]. unfold discover_all_datasets in Hr.
  destruct (discover_loop_never_ends server_always_ok "t1" 10 passes
              (mkDiscoverState empty_world [] 0 1)) as [s' Hs']; simpl; try lia.
  - intros d. reflexivity.
  - rewrite Hs' in Hr. discriminate Hr.
Qed.

(** C7, amended. The page walk ends for every server: its loop is left
    within [max_pages] passes, after requests for consecutive pages below
    [max_pages] only. Dataset discovery, with a positive threshold, ends
    exactly when the server fails that many ids in a row somewhere from
    the start on, and a run ends exactly when its discovery does. *)
Theorem page_walk_bounded_discovery_conditional `{Env}
    (server : string → Transport) (now : string) (w : World)
    (d max_pages start threshold : Z) (download : bool) :
  (∃ s' (k : nat),
     walk_loop (Z.to_nat max_pages) server now d max_pages (mkWalkState w [] 0 0)
       = Finished s'
     ∧ Z.of_nat k ≤ Z.max 0 max_pages
     ∧ ws_world s' = after_requests (page_url d <$> seqZ 0 (Z.of_nat k)) w)
  ∧ (0 < threshold →
     (discovery_ends server now w start threshold
      ↔ ∃ d0, start ≤ d0 ∧ failing_window server d0 threshold))
  ∧ (∀ passes,
       is_Some (discover_and_process_all passes server now w start download)
       ↔ is_Some (discover_all_datasets passes server now w start 10)).
Proof.
  split; [|split].
  - destruct (walk_loop_finishes server now d max_pages (Z.to_nat max_pages)
                (mkWalkState w [] 0 0)) as (s' & k & Hrun & Hk & Hw); simpl; [lia|].
    exists s', k. rewrite Z.sub_0_r in Hk. done.
  - intros Hthr. split.
    + intros [passes [[w' l] Hr]]. unfold discover_all_datasets in Hr.
      destruct (discover_loop _ _ _ _ _) as [s'|] eqn:Hrun; [|done].
      apply discover_loop_finished in Hrun as (n & Hn & _ & Ht & Hpos & Hw);
        simpl in *; [| lia | intros i Hi; lia].
      exists (start + Z.of_nat n - threshold). split; [lia|].
      intros i Hi. apply Hw. lia.
    + intros (d0 & Hd0 & Hwin).
      destruct (discover_loop_ends_at_window server now threshold d0
                  (Z.to_nat (d0 + threshold - start))
                  (mkDiscoverState w [] 0 start) Hwin) as [s' Hs']; simpl; try lia.
      exists (Z.to_nat (d0 + threshold - start)).
      unfold discover_all_datasets. rewrite Hs'. eauto.
  - intros passes. apply run_ends_with_discovery.
Qed.

Lemma page_walk_bounded_discovery_conditional_witness :
  0 < 10
  ∧ (discovery_ends server_123 "t1" empty_world 1 10
     ↔ ∃ d0, 1 ≤ d0 ∧ failing_window server_123 d0 10).
Proof.
  split; [lia|].
  apply (page_walk_bounded_discovery_conditional (H:=sample_env)
           server_123 "t1" empty_world 7 1000 1 10 true).
  lia.
Defined.

(** ** Page walker: transport errors *)

(** A timeout or a failed connection reaches the page walker as [None],
    like a 403, and the walker leaves the loop. *)
Lemma walk_page_transport_error `{Env} server now d s :
  server (page_url d (page s)) = TimedOut
  ∨ server (page_url d (page s)) = ConnectionFailed →
  walk_page server now d s =
    (mkWalkState (after_requests [page_url d (page s)] (ws_world s)) (all_files s)
       (page s) (consecutive_empty_pages s), true).
Proof.
  intros [Hs|Hs]; unfold walk_page, _make_request; rewrite Hs; reflexivity.
Qed.

(** A status that is neither 200, 403 nor 404 is what the walker counts
    like an empty page. *)
Lemma walk_page_other_status `{Env} server now d s code body :
  server (page_url d (page s)) = Reply code body →
  code ≠ 200 → code ≠ 403 → code ≠ 404 →
  walk_page server now d s =
    (mkWalkState (after_requests [page_url d (page s)] (ws_world s)) (all_files s)
       (page s) (consecutive_empty_pages s + 1), false).
Proof.
  intros Hs H200 H403 H404. unfold walk_page, _make_request. rewrite Hs.
  apply Z.eqb_neq in H200, H403, H404. rewrite H403. simpl. rewrite H200, H404.
  reflexivity.
Qed.

(** C4. The code does not do what the claim says. With a timeout on page 0
    and a file on page 1 the walk requests page 0 only: the loop is left
    with the counter still at 0, page 1 is never requested and no file is
    found. *)
Theorem page_walk_gives_up_on_timeout (now : string) :
  let s := walk_pages (H:=sample_env) server_timeout now empty_world 7 1000 in
  server_timeout (page_url 7 0) = TimedOut
  ∧ page_with_files (H:=sample_env) server_timeout 7 1
  ∧ requests (ws_world s) = [page_url 7 0]
  ∧ consecutive_empty_pages s = 0
  ∧ all_files s = []
  ∧ snd (discover_dataset_pages (H:=sample_env) server_timeout now empty_world 7 1000) = [].
Proof.
  split; [reflexivity|]. split.
  - exists page_y. split; [reflexivity|discriminate].
  - repeat split; vm_compute; reflexivity.
Qed.

(** ** Downloader: verification *)

Lemma string_length_app (s1 s2 : string) :
  String.length (s1 +:+ s2) = (String.length s1 + String.length s2)%nat.
Proof. induction s1 as [|c s1 IH]; simpl; [done|]. by rewrite IH. Qed.

(** The temporary path of a file is not its final path. *)
Lemma temp_path_ne_final (dir name : string) :
  path_join dir (name +:+ ".tmp") ≠ path_join dir name.
Proof.
  intros Heq. apply (f_equal String.length) in Heq. revert Heq.
  unfold path_join. destruct name as [|c name].
  - change ("" +:+ ".tmp") with ".tmp".
    change (String.prefix "/" ".tmp") with false.
    change (String.prefix "/" "") with false.
    cbv iota. repeat (rewrite string_length_app; cbn [String.length]). lia.
  - change (String c name +:+ ".tmp") with (String c (name +:+ ".tmp")).
    cbn [String.prefix]. destruct (Ascii.ascii_dec _ c).
    + assert (Hempty : ∀ s, String.prefix "" s = true) by (by intros []).
      rewrite !Hempty. cbn [String.length]. rewrite string_length_app.
      cbn [String.length]. lia.
    + repeat (rewrite string_length_app; cbn [String.length]). lia.
Qed.


(** C1. The code does not do what the claim says for a file verified in
    place. A file of 8 bytes that begins with the signature and lies in
    the dataset directory under the name of a pending record is promoted
    to [SUCCESS] without any request and stays on disk; and a file there
    that fails the signature stays on disk when the fetch that follows
    fails. *)
Theorem download_file_promotes_short_local_file (now : string) :
  let local := path_join (_get_dataset_dir 1) "x.pdf" in
  let '(w, m, res) :=
    download_file (H:=sample_env) server_one_file now world_short_local record_x in
  st_size short_pdf_body = 8
  ∧ status m = SUCCESS
  ∧ file_size m = Some 8
  ∧ res = (false, Some local)
  ∧ payloads w !! local = Some short_pdf_body
  ∧ requests w = []
  ∧ let '(w, m, res) :=
      download_file (H:=sample_env) (λ _, Reply 404 "") now
        (set_payloads {[local := "<html>"]} world_short_local) record_x in
    status m = FAILED ∧ payloads w !! local = Some "<html>".
Proof. vm_compute. repeat split; reflexivity. Qed.

(** ** Counting records by status *)

Lemma count_status_empty st : count_status st ∅ = 0.
Proof. unfold count_status. by rewrite map_filter_empty, map_size_empty. Qed.

Lemma count_status_nonneg st fs : 0 ≤ count_status st fs.
Proof. unfold count_status. lia. Qed.

(** Storing a record under a url: the record that was there, if any, no
    longer counts, the new one does. *)
Lemma count_status_insert st u m (fs : gmap string FileMetadata) :
  count_status st (<[u := m]> fs) =
    count_status st fs
    - match fs !! u with Some old => tally st old | None => 0 end
    + tally st m.
Proof.
  unfold count_status, tally.
  rewrite map_filter_insert. simpl.
  assert (Hlook : filter (λ kv, status kv.2 = st) fs !! u
                  = match fs !! u with
                    | Some old => if decide (status old = st) then Some old else None
                    | None => None
                    end).
  { rewrite map_lookup_filter. destruct (fs !! u) as [old|]; simpl; [|done].
    destruct (decide (status old = st));
      [by rewrite option_guard_True|by rewrite option_guard_False]. }
  destruct (decide (status m = st)) as [Hm|Hm].
  - rewrite map_size_insert, Hlook.
    destruct (fs !! u) as [old|]; [destruct (decide (status old = st))|]; simpl; lia.
  - rewrite map_filter_delete, map_size_delete, Hlook.
    destruct (fs !! u) as [old|] eqn:Hu;
      [destruct (decide (status old = st)) as [Hold|Hold]|]; simpl; try lia.
    assert (size (filter (λ kv, status kv.2 = st) fs) ≠ 0%nat); [|lia].
    intros Hz. apply map_size_empty_inv in Hz.
    rewrite Hz, lookup_empty in Hlook. discriminate Hlook.
Qed.

(** ** Page walker: the merge into the cache *)

Lemma unique_by_url_sublist l : ∀ seen, unique_by_url seen l `sublist_of` l.
Proof.
  induction l as [|f l IH]; intros seen; simpl; [constructor|].
  case_decide; [apply sublist_cons|apply sublist_skip]; apply IH.
Qed.

Lemma unique_by_url_fresh l : ∀ seen f,
  f ∈ unique_by_url seen l → url f ∉ seen.
Proof.
  induction l as [|g l IH]; intros seen f; simpl; [by intros ?%elem_of_nil|].
  case_decide as Hg.
  - apply IH.
  - intros [->|Hin]%elem_of_cons; [done|].
    apply IH in Hin. set_solver.
Qed.

Lemma unique_by_url_NoDup l : ∀ seen, NoDup (url <$> unique_by_url seen l).
Proof.
  induction l as [|g l IH]; intros seen; simpl; [constructor|].
  case_decide as Hg; [apply IH|].
  rewrite fmap_cons. apply NoDup_cons. split; [|apply IH].
  intros (f & Hf & Hin)%list_elem_of_fmap.
  apply unique_by_url_fresh in Hin. set_solver.
Qed.

(** A url of the input is the url of a record that is kept, unless it
    has been seen. *)
Lemma unique_by_url_covers l : ∀ seen f,
  f ∈ l → url f ∈ seen ∨ url f ∈ url <$> unique_by_url seen l.
Proof.
  induction l as [|g l IH]; intros seen f; [by intros ?%elem_of_nil|].
  simpl. intros [->|Hin]%elem_of_cons.
  - case_decide; [by left|]. right. rewrite fmap_cons. set_solver.
  - case_decide as Hg.
    + by apply IH.
    + rewrite fmap_cons. destruct (IH ({[url g]} ∪ seen) f Hin) as [Hs|Hs].
      * apply elem_of_union in Hs as [Hs|Hs]; [|by left].
        apply elem_of_singleton in Hs. right. rewrite Hs. apply list_elem_of_here.
      * right. by apply list_elem_of_further.
Qed.

Lemma filter_known_spec now l : ∀ c c' new_files,
  filter_known now c l = (c', new_files) →
  new_files `sublist_of` l
  ∧ Forall (λ f, files c !! url f = None) new_files
  ∧ (∀ f, f ∈ l → files c !! url f = None → f ∈ new_files)
  ∧ (∀ u, files c' !! u = None ↔ files c !! u = None)
  ∧ (∀ st, count_status st (files c') = count_status st (files c))
  ∧ size (files c') = size (files c)
  ∧ total_discovered c' = total_discovered c
  ∧ same_download_counters c c'.
Proof.
  induction l as [|f l IH]; intros c c' nf; simpl.
  - intros [= <- <-]. repeat split; done.
  - destruct (files c !! url f) as [existing|] eqn:Hf.
    + intros Hrec. apply IH in Hrec as (Hsub & Hnew & Hall & Hkeys & Hcount & Hsize & Hd & Hc).
      simpl in *.
      assert (Hk : ∀ u, <[url f := set_last_checked (Some now) existing]> (files c) !! u = None
                        ↔ files c !! u = None).
      { intros u. destruct (decide (url f = u)) as [<-|Hne].
        - rewrite lookup_insert_eq, Hf. split; discriminate.
        - by rewrite lookup_insert_ne. }
      split; [by apply sublist_cons|]. split.
      { eapply Forall_impl; [exact Hnew|]. intros g Hg. by apply Hk. }
      split.
      { intros g [->|Hg]%elem_of_cons Hnone; [congruence|].
        apply Hall; [done|]. by apply Hk. }
      split; [intros u; rewrite Hkeys; apply Hk|].
      split.
      { intros st. rewrite Hcount, count_status_insert, Hf.
        unfold tally. simpl. lia. }
      split; [rewrite Hsize; apply map_size_insert_Some; eauto|].
      done.
    + destruct (filter_known now c l) as [c1 nf1] eqn:Hrec.
      intros [= <- <-].
      apply IH in Hrec as (Hsub & Hnew & Hall & Hkeys & Hcount & Hsize & Hd & Hc).
      split; [by apply sublist_skip|]. split; [by constructor|].
      split; [|done].
      intros g [->|Hg]%elem_of_cons Hnone; [apply elem_of_cons; by left|].
      apply elem_of_cons. right. by apply Hall.
Qed.

Lemma add_new_files_spec new_files : ∀ c,
  NoDup (url <$> new_files) →
  Forall (λ f, files c !! url f = None) new_files →
  size (files (add_new_files c new_files)) = (size (files c) + length new_files)%nat
  ∧ total_discovered (add_new_files c new_files)
      = total_discovered c + Z.of_nat (length new_files)
  ∧ same_download_counters c (add_new_files c new_files)
  ∧ (∀ st, Forall (λ f, status f ≠ st) new_files →
       count_status st (files (add_new_files c new_files)) = count_status st (files c))
  ∧ (∀ f, f ∈ new_files → files (add_new_files c new_files) !! url f = Some f)
  ∧ (∀ u, u ∉ url <$> new_files →
       files (add_new_files c new_files) !! u = files c !! u).
Proof.
  induction new_files as [|f l IH]; intros c Hnd Hfresh; simpl.
  - repeat split; try done; try lia. by intros f ?%elem_of_nil.
  - rewrite fmap_cons in Hnd. apply NoDup_cons in Hnd as [Hf Hnd].
    apply Forall_cons in Hfresh as [Hnone Hfresh].
    set (c1 := set_total_discovered (total_discovered c + 1)
                 (set_files (<[url f := f]> (files c)) c)).
    destruct (IH c1 Hnd) as (Hsize & Hd & Hc & Hcount & Hin & Hout).
    { apply Forall_forall. intros g Hg. simpl.
      rewrite lookup_insert_ne; [by eapply Forall_forall in Hfresh|].
      intros Heq. apply Hf. rewrite Heq. by apply list_elem_of_fmap_2. }
    simpl in *. split.
    { rewrite Hsize, map_size_insert_None by done. lia. }
    split; [lia|]. split; [done|]. split.
    { intros st [Hst Hrest]%Forall_cons. rewrite Hcount by done.
      rewrite count_status_insert, Hnone. unfold tally. rewrite decide_False by done. lia. }
    split.
    { intros g [->|Hg]%elem_of_cons; [|by apply Hin].
      rewrite Hout by done. apply lookup_insert_eq. }
    intros u Hu. apply not_elem_of_cons in Hu as [Hne Hu].
    rewrite Hout by done. by rewrite lookup_insert_ne.
Qed.

Lemma Forall_of_sublist {A} (P : A → Prop) (l1 l2 : list A) :
  l1 `sublist_of` l2 → Forall P l2 → Forall P l1.
Proof.
  intros Hsub Hall. apply Forall_forall. intros x Hx.
  eapply Forall_forall in Hall; [exact Hall|]. by eapply elem_of_sublist.
Qed.

Section WalkMerge.
Context `{Env} (server : string → Transport) (now : string) (d max_pages : Z).

Lemma extract_file_links_pending html u :
  Forall (λ f, status f = PENDING) (_extract_file_links html u d now).
Proof.
  unfold _extract_file_links. apply Forall_forall. intros f Hf.
  apply list_elem_of_fmap in Hf as ([u' n] & -> & _). reflexivity.
Qed.

Lemma walk_page_all_files s :
  Forall (λ f, status f = PENDING) (all_files s) →
  Forall (λ f, status f = PENDING) (all_files (fst (walk_page server now d s))).
Proof.
  intros Hs. unfold walk_page.
  destruct (_make_request _ _ _ _) as [w [r|]]; [|done].
  destruct (status_code r =? 200).
  - pose proof (extract_file_links_pending (text r) (page_url d (page s))) as Hp.
    destruct (_extract_file_links _ _ _ _) as [|f l]; [done|]. simpl.
    apply Forall_app. split; [done|].
    eapply Forall_of_sublist; [apply (unique_by_url_sublist (f :: l) ∅)|exact Hp].
  - destruct (status_code r =? 404); done.
Qed.

Lemma walk_loop_all_files passes : ∀ s,
  Forall (λ f, status f = PENDING) (all_files s) →
  Forall (λ f, status f = PENDING)
    (all_files match walk_loop passes server now d max_pages s with
               | Finished s' => s'
               | StillRunning s' => s'
               end).
Proof.
  induction passes as [|passes IH]; intros s Hs; simpl;
    destruct (_ && _); try done.
  pose proof (walk_page_all_files s Hs) as Hp.
  destruct (walk_page server now d s) as [s1 broke]. simpl in Hp.
  destruct broke; [done|]. by apply IH.
Qed.

(** The walk itself only adds to the urls requested; every record it
    collects is pending. *)
Lemma walk_pages_spec w :
  (∃ us, ws_world (walk_pages server now w d max_pages) = after_requests us w)
  ∧ Forall (λ f, status f = PENDING) (all_files (walk_pages server now w d max_pages)).
Proof.
  split.
  - unfold walk_pages.
    destruct (walk_loop_finishes server now d max_pages (Z.to_nat max_pages)
                (mkWalkState w [] 0 0)) as (s' & k & -> & _ & ->); simpl; [lia|].
    eauto.
  - apply (walk_loop_all_files (Z.to_nat max_pages) (mkWalkState w [] 0 0)).
    constructor.
Qed.

(** What a page walk with its merge does to the cache: the new records
    are stored, pending, under urls that were free, and counted. *)
Lemma discover_dataset_pages_spec w :
  let w' := fst (discover_dataset_pages server now w d max_pages) in
  let new_files := snd (discover_dataset_pages server now w d max_pages) in
  size (files (cache w')) = (size (files (cache w)) + length new_files)%nat
  ∧ total_discovered (cache w') = total_discovered (cache w) + Z.of_nat (length new_files)
  ∧ same_download_counters (cache w) (cache w')
  ∧ (∀ st, st ≠ PENDING →
       count_status st (files (cache w')) = count_status st (files (cache w)))
  ∧ NoDup (url <$> new_files)
  ∧ (∀ f, f ∈ new_files →
       files (cache w') !! url f = Some f
       ∧ status f = PENDING
       ∧ files (cache w) !! url f = None)
  ∧ (∀ u, files (cache w) !! u ≠ None → files (cache w') !! u ≠ None)
  ∧ payloads w' = payloads w.
Proof.
  unfold discover_dataset_pages, merge_files.
  destruct (walk_pages_spec w) as [[us Hw] Hpend].
  destruct (walk_pages server now w d max_pages) as [ww found pg ce]. simpl in *.
  subst ww. unfold after_requests. simpl.
  destruct (filter_known now (cache w) (unique_by_url ∅ found))
    as [c1 nf] eqn:Hfk. simpl.
  rewrite save_cache_cache, save_cache_payloads. simpl.
  apply filter_known_spec in Hfk
    as (Hsub & Hnew & Hall & Hkeys & Hcount & Hsize & Hd & Hc1 & Hc2 & Hc3).
  assert (Hnd : NoDup (url <$> nf)).
  { apply (sublist_NoDup (url <$> nf) (url <$> unique_by_url ∅ found));
      [apply unique_by_url_NoDup|by apply fmap_sublist]. }
  assert (Hfresh : Forall (λ f, files c1 !! url f = None) nf).
  { eapply Forall_impl; [exact Hnew|]. intros f Hf. by apply Hkeys. }
  assert (Hpnf : Forall (λ f, status f = PENDING) nf).
  { eapply Forall_of_sublist; [exact Hsub|].
    eapply Forall_of_sublist; [apply unique_by_url_sublist|exact Hpend]. }
  destruct (add_new_files_spec nf c1 Hnd Hfresh)
    as (Asize & Ad & (Ac1 & Ac2 & Ac3) & Acount & Ain & Aout).
  simpl in *.
  split; [lia|]. split; [lia|]. split; [unfold same_download_counters; simpl; lia|].
  split.
  { intros st Hst. rewrite Acount, Hcount; [done|].
    eapply Forall_impl; [exact Hpnf|]. intros f ->. done. }
  split; [done|]. split.
  { intros f Hf. split; [by apply Ain|]. split.
    - by eapply Forall_forall in Hpnf.
    - by eapply Forall_forall in Hnew. }
  split; [|done].
  intros u Hu. destruct (decide (u ∈ url <$> nf)) as [Hin|Hout].
  - apply list_elem_of_fmap in Hin as (f & -> & Hf). by rewrite Ain.
  - rewrite Aout by done. by rewrite Hkeys.
Qed.
End WalkMerge.

(** ** Downloader: what a call does to the cache *)

Lemma rename_cache src dst w : cache (rename src dst w) = cache w.
Proof. unfold rename. by destruct (payloads w !! src). Qed.

(** [download_file] leaves the records of the cache and the counter of
    discoveries alone and keeps the url of the record. Either nothing
    changes (the record is marked [SUCCESS] and its file exists), or the
    record ends up [SUCCESS] and one of [total_downloaded] and
    [total_skipped] goes up by one, or it ends up [FAILED] and
    [total_failed] goes up by one. *)
Lemma download_file_spec `{Env} server now w m :
  let w' := fst (fst (download_file server now w m)) in
  let m' := snd (fst (download_file server now w m)) in
  files (cache w') = files (cache w)
  ∧ total_discovered (cache w') = total_discovered (cache w)
  ∧ url m' = url m
  ∧ ((status m = SUCCESS ∧ m' = m ∧ w' = w)
     ∨ (status m' = SUCCESS
        ∧ total_downloaded (cache w') + total_skipped (cache w')
            = total_downloaded (cache w) + total_skipped (cache w) + 1
        ∧ total_failed (cache w') = total_failed (cache w))
     ∨ (status m' = FAILED
        ∧ total_failed (cache w') = total_failed (cache w) + 1
        ∧ total_downloaded (cache w') = total_downloaded (cache w)
        ∧ total_skipped (cache w') = total_skipped (cache w))).
Proof.
  unfold download_file.
  destruct (match status m with SUCCESS => _ | _ => false end) eqn:Halready.
  { simpl. repeat split; try done. left.
    destruct (status m); try discriminate Halready. done. }
  clear Halready.
  destruct (match payloads w !! _ with Some bytes => _ | None => None end) as [bytes|].
  { simpl. repeat split; try done. right. left. simpl. repeat split; lia. }
  pose proof (make_request_world server true w (url m)) as Hreq.
  simpl in Hreq |- *.
  destruct (_make_request server true w (url m)) as [w1 resp]. simpl in Hreq. subst w1.
  destruct resp as [r|]; [|simpl; repeat split; try done; right; right; simpl;
                            repeat split; lia].
  destruct (status_code r =? 200); simpl;
    [|repeat split; try done; right; right; simpl; repeat split; lia].
  destruct (intact r); simpl;
    [|repeat split; try done; right; right; simpl; repeat split; lia].
  destruct (_verify_pdf (text r)); simpl;
    [|repeat split; try done; right; right; simpl; repeat split; lia].
  destruct (st_size (text r) <? 1024); simpl;
    [repeat split; try done; right; right; simpl; repeat split; lia|].
  rewrite !rename_cache. simpl.
  repeat split; try done. right. left. simpl. repeat split; lia.
Qed.

(** [download_file] on an object of the cache: the object is updated
    under its url, no other record is touched. *)
Lemma download_object_spec `{Env} server now w f m :
  files (cache w) !! url f = Some m →
  let w' := fst (fst (download_object server now w f)) in
  let m' := snd (fst (download_file server now w m)) in
  let w1 := fst (fst (download_file server now w m)) in
  files (cache w') = <[url f := m']> (files (cache w))
  ∧ total_discovered (cache w') = total_discovered (cache w)
  ∧ same_download_counters (cache w1) (cache w')
  ∧ payloads w' = payloads w1
  ∧ snd (fst (download_object server now w f)) = m'
  ∧ snd (download_object server now w f) = snd (download_file server now w m).
Proof.
  intros Hm. unfold download_object. rewrite Hm.
  destruct (download_file_spec server now w m) as (Hfiles & Hd & _).
  destruct (download_file server now w m) as [[w1 m'] res]. simpl in *.
  rewrite Hfiles. done.
Qed.

Lemma download_object_absent `{Env} server now w f :
  files (cache w) !! url f = None →
  download_object server now w f = download_file server now w f.
Proof. intros Hf. unfold download_object. by rewrite Hf. Qed.

(** ** Invariants of the cache *)

Section Invariants.
Context `{Env}.

(** [total_discovered] is the number of records. *)
Lemma discovered_is_size_reachable may_download w :
  reachable may_download w →
  total_discovered (cache w) = Z.of_nat (size (files (cache w))).
Proof.
  induction 1 as [now disk cf bf rq|server now d mp w Hw IH
                  |server now f m w Hw IH Hm _|now w Hw IH|now w Hw IH].
  - simpl. by rewrite map_size_empty.
  - destruct (discover_dataset_pages_spec server now d mp w) as (Hs & Hd & _).
    rewrite Hs, Hd, IH. lia.
  - destruct (download_object_spec server now w f m Hm) as (Hf & Hd & _).
    rewrite Hf, Hd, IH. rewrite map_size_insert_Some by eauto. done.
  - rewrite save_cache_cache. simpl. exact IH.
  - unfold cleanup_all. rewrite save_cache_cache. simpl. by rewrite map_size_empty.
Qed.

(** The download counters count events; every event marks the record
    accordingly, as long as a record is downloaded once. *)
Lemma counters_by_event_reachable w :
  reachable is_pending w → counters_by_event (cache w).
Proof.
  unfold counters_by_event.
  induction 1 as [now disk cf bf rq|server now d mp w Hw IH
                  |server now f m w Hw IH Hm Hpend|now w Hw IH|now w Hw IH].
  - simpl. rewrite !count_status_empty. done.
  - destruct (discover_dataset_pages_spec server now d mp w)
      as (_ & _ & (Hc1 & Hc2 & Hc3) & Hcount & _).
    rewrite !Hcount by done. lia.
  - destruct (download_object_spec server now w f m Hm)
      as (Hf & _ & (Hc1 & Hc2 & Hc3) & _).
    destruct (download_file_spec server now w m) as (_ & _ & _ & Hcases).
    rewrite Hf, !count_status_insert, Hm, Hc1, Hc2, Hc3.
    unfold tally. unfold is_pending in Hpend. rewrite Hpend.
    destruct Hcases as [(Hs & _)|[(Hs & Hsum & Hfl)|(Hs & Hfl & Hd & Hsk)]].
    + congruence.
    + rewrite Hs. simpl. lia.
    + rewrite Hs. simpl. lia.
  - rewrite save_cache_cache. simpl. exact IH.
  - unfold cleanup_all. rewrite save_cache_cache. simpl.
    rewrite !count_status_empty. done.
Qed.
End Invariants.

(** ** The driver stays within the reachable states *)

Section Driver.
Context `{Env}.

(** The download loop of [process_dataset] downloads records that are
    pending: those the page walk has just stored, each once. *)
Lemma download_files_reachable server now total todo : ∀ i w r,
  reachable is_pending w →
  NoDup (url <$> todo) →
  (∀ f, f ∈ todo → ∃ m, files (cache w) !! url f = Some m ∧ status m = PENDING) →
  reachable is_pending (fst (download_files server now total i todo w r)).
Proof.
  induction todo as [|f todo IH]; intros i w r Hw Hnd Hpend; simpl; [done|].
  rewrite fmap_cons in Hnd. apply NoDup_cons in Hnd as [Hf Hnd].
  destruct (Hpend f) as (m & Hm & Hst); [apply list_elem_of_here|].
  pose proof (reach_download is_pending server now f m w Hw Hm Hst) as Hw1.
  destruct (download_object_spec server now w f m Hm) as (Hfiles & _).
  destruct (download_object server now w f) as [[w1 m1] res]. simpl in Hw1, Hfiles.
  apply IH; [by destruct (_ || _); [apply reach_save|] | done |].
  intros g Hg. destruct (Hpend g) as (mg & Hmg & Hsg); [by apply list_elem_of_further|].
  exists mg. split; [|done].
  assert (Hlook : files (cache w1) !! url g = Some mg).
  { rewrite Hfiles, lookup_insert_ne; [done|].
    intros Heq. apply Hf. rewrite Heq. by apply list_elem_of_fmap_2. }
  destruct (_ || _); [rewrite save_cache_cache; simpl|]; exact Hlook.
Qed.

Lemma process_dataset_reachable server now d download w :
  reachable is_pending w →
  reachable is_pending (fst (process_dataset server now w d download)).
Proof.
  intros Hw. unfold process_dataset.
  pose proof (reach_walk is_pending server now d 1000 w Hw) as Hw1.
  destruct (discover_dataset_pages_spec server now d 1000 w)
    as (_ & _ & _ & _ & Hnd & Hin & _).
  destruct (discover_dataset_pages server now w d 1000) as [w1 new_files].
  simpl in Hw1, Hnd, Hin.
  destruct new_files as [|f rest]; [done|].
  destruct download.
  - pose proof (download_files_reachable server now (Z.of_nat (length (f :: rest)))
                  (f :: rest) 1 w1
                  (mkDatasetResult d (Z.of_nat (length (f :: rest))) 0 0 0 0)
                  Hw1 Hnd) as Hdl.
    destruct (download_files _ _ _ _ _ _ _) as [w2 r2]. simpl in *.
    apply reach_save, Hdl. intros g Hg. exists g. destruct (Hin g Hg) as (? & ? & _). done.
  - simpl. by apply reach_save.
Qed.

Lemma run_reachable_reachable w :
  run_reachable w → reachable is_pending w.
Proof.
  induction 1 as [now disk cf bf rq|server now d download w Hw IH|now w Hw IH].
  - apply reach_empty.
  - by apply process_dataset_reachable.
  - by apply reach_cleanup.
Qed.
End Driver.

(** The claim of C5 fails. Dataset 1 lists two files of the same name
    under two urls; after [process_dataset] both records are [SUCCESS],
    one fetched and one verified in place, and the counters are
    [total_downloaded = 1], [total_skipped = 1]: neither is the number of
    records of its status. *)
Lemma counters_differ_from_status_counts :
  let w := fst (process_dataset (H:=sample_env) server_same_name "t1" empty_world 1 true) in
  run_reachable (H:=sample_env) w ∧ ¬ counters_by_status (cache w).
Proof.
  split.
  - apply run_process. apply run_empty.
  - intros (Hd & _). vm_compute in Hd. discriminate Hd.
Qed.

(** C5, amended. In every state the program reaches from an empty cache,
    by whole calls of [process_dataset] and [cleanup_all] and also by page
    walks, saves, cleanups and downloads of records still pending taken
    one at a time: [total_downloaded + total_skipped] is the number of
    records marked [SUCCESS], [total_failed] is the number marked
    [FAILED], and no record is marked [SKIPPED]. *)
Theorem counters_count_download_events `{Env} (w : World) :
  run_reachable w ∨ reachable is_pending w →
  counters_by_event (cache w).
Proof.
  intros [Hw|Hw].
  - by apply counters_by_event_reachable, run_reachable_reachable.
  - by apply counters_by_event_reachable.
Qed.

Lemma counters_count_download_events_witness :
  let w := fst (process_dataset (H:=sample_env) server_same_name "t1" empty_world 1 true) in
  run_reachable (H:=sample_env) w ∧ counters_by_event (cache w).
Proof.
  assert (Hw : run_reachable (H:=sample_env)
                 (fst (process_dataset (H:=sample_env) server_same_name "t1"
                         empty_world 1 true)))
    by (apply run_process, run_empty).
  split; [exact Hw|].
  apply (counters_count_download_events (H:=sample_env)). left. exact Hw.
Defined.

(** C10. In every state reached from an empty cache by page walks with
    their merge, downloads of any record of the cache, saves and cleanups,
    [total_discovered] is the number of entries of [files]: a page walk
    adds one to it per record it inserts, each under a url that was
    free; a download changes neither the set of urls nor the counter; a
    cleanup empties the map and zeroes the counter. *)
Theorem total_discovered_counts_files `{Env} :
  (∀ w, reachable any_record w →
     total_discovered (cache w) = Z.of_nat (size (files (cache w))))
  ∧ (∀ server now w d max_pages,
       let w' := fst (discover_dataset_pages server now w d max_pages) in
       let new_files := snd (discover_dataset_pages server now w d max_pages) in
       total_discovered (cache w')
         = total_discovered (cache w) + Z.of_nat (length new_files)
       ∧ size (files (cache w')) = (size (files (cache w)) + length new_files)%nat
       ∧ ∀ f, f ∈ new_files →
           files (cache w) !! url f = None ∧ files (cache w') !! url f = Some f)
  ∧ (∀ server now w f,
       let w' := fst (fst (download_object server now w f)) in
       dom (files (cache w')) = dom (files (cache w))
       ∧ total_discovered (cache w') = total_discovered (cache w))
  ∧ (∀ now w,
       files (cache (cleanup_all now w)) = ∅
       ∧ total_discovered (cache (cleanup_all now w)) = 0).
Proof.
  split; [|split; [|split]].
  - intros w. apply discovered_is_size_reachable.
  - intros server now w d max_pages.
    destruct (discover_dataset_pages_spec server now d max_pages w)
      as (Hs & Hd & _ & _ & _ & Hin & _).
    split; [done|]. split; [done|]. intros f Hf. destruct (Hin f Hf) as (? & _ & ?). done.
  - intros server now w f. cbv zeta.
    destruct (files (cache w) !! url f) as [m|] eqn:Hm.
    + destruct (download_object_spec server now w f m Hm) as (Hf & Hd & _).
      split; [|done]. rewrite Hf, dom_insert_L.
      apply subseteq_union_1_L, singleton_subseteq_l, elem_of_dom. eauto.
    + rewrite (download_object_absent server now w f Hm).
      destruct (download_file_spec server now w f) as (Hf & Hd & _).
      simpl in Hf, Hd. by rewrite Hf, Hd.
  - intros now w. unfold cleanup_all. by rewrite save_cache_cache.
Qed.

Lemma total_discovered_counts_files_witness :
  let w := fst (discover_dataset_pages (H:=sample_env) server_pages "t1" empty_world 7 1000) in
  reachable (H:=sample_env) any_record w
  ∧ total_discovered (cache w) = Z.of_nat (size (files (cache w))).
Proof.
  assert (Hw : reachable (H:=sample_env) any_record
                 (fst (discover_dataset_pages (H:=sample_env) server_pages "t1"
                         empty_world 7 1000)))
    by (apply reach_walk, reach_empty).
  split; [exact Hw|].
  destruct (total_discovered_counts_files (H:=sample_env)) as (Hinv & _).
  apply Hinv. exact Hw.
Defined.

(** ** Cache store: loading *)



(** ** Run controller: interrupt *)

(** C8. The code does not do what the claim says. The handler of the
    interrupt in [main] changes nothing on disk: it prints that the cache
    has been saved and does not save it. A run interrupted after the first
    pass of dataset discovery has found dataset 1 in memory
    ([max_dataset_found = 1]) and exits with no cache file at all, where a
    save at that point would have written the mark. *)
Theorem interrupt_handler_does_not_save :
  (∀ w, fst (on_keyboard_interrupt w) = w)
  ∧ ∃ w,
      main_interrupted_in_discovery 1 server_123 "t1" 1 empty_world
        = Some (w, ["Process interrupted by user"; "Cache has been saved"])
      ∧ max_dataset_found (cache w) = 1
      ∧ cache_file w = None
      ∧ ∃ d, cache_file (_save_cache "t2" w) = Some (Document d)
             ∧ cd_max_dataset_found d = Some 1.
Proof.
  split; [reflexivity|].
  eexists. split; [vm_compute; reflexivity|].
  split; [reflexivity|]. split; [reflexivity|].
  eexists. split; vm_compute; reflexivity.
Qed.

(** ** Repeated walks on the same cache *)

Lemma filter_known_all_known now l : ∀ c,
  (∀ f, f ∈ l → files c !! url f ≠ None) →
  snd (filter_known now c l) = [].
Proof.
  induction l as [|f l IH]; intros c Hknown; simpl; [done|].
  destruct (files c !! url f) as [existing|] eqn:Hf.
  - apply IH. intros g Hg. simpl.
    destruct (decide (url f = url g)) as [Heq|Hne].
    + rewrite Heq, lookup_insert_eq. done.
    + rewrite lookup_insert_ne by done. apply Hknown. by apply list_elem_of_further.
  - exfalso. apply (Hknown f); [apply list_elem_of_here|done].
Qed.

Lemma unique_by_url_urls l1 : ∀ l2 seen,
  url <$> l1 = url <$> l2 →
  url <$> unique_by_url seen l1 = url <$> unique_by_url seen l2.
Proof.
  induction l1 as [|f1 l1 IH]; intros [|f2 l2] seen Heq; try done.
  rewrite !fmap_cons in Heq. injection Heq as Hu Hrest. simpl.
  rewrite Hu. case_decide; [by apply IH|].
  rewrite !fmap_cons, Hu. f_equal. by apply IH.
Qed.

Section Rewalk.
Context `{Env} (server : string → Transport) (d max_pages : Z).

Lemma make_request_response stream w1 w2 u :
  snd (_make_request server stream w1 u) = snd (_make_request server stream w2 u).
Proof.
  unfold _make_request.
  destruct (server u) as [code body|code rcv| |]; simpl;
    repeat (case_match; simpl); reflexivity.
Qed.

Lemma extract_file_links_urls html u now1 now2 :
  url <$> _extract_file_links html u d now1 = url <$> _extract_file_links html u d now2.
Proof.
  unfold _extract_file_links.
  induction (scan_links html u) as [|[u' n] l IH]; [done|].
  cbn [map]. rewrite !fmap_cons. cbn [url]. by rewrite IH.
Qed.

(** Two passes of the walk from states that agree on the page, the
    counter and the urls collected agree on them afterwards, whatever
    the clock and the rest of the world. *)
Lemma walk_page_urls now1 now2 s1 s2 :
  page s1 = page s2 →
  consecutive_empty_pages s1 = consecutive_empty_pages s2 →
  url <$> all_files s1 = url <$> all_files s2 →
  let r1 := walk_page server now1 d s1 in
  let r2 := walk_page server now2 d s2 in
  snd r1 = snd r2
  ∧ page (fst r1) = page (fst r2)
  ∧ consecutive_empty_pages (fst r1) = consecutive_empty_pages (fst r2)
  ∧ url <$> all_files (fst r1) = url <$> all_files (fst r2).
Proof.
  intros Hp Hc Hu. unfold walk_page. rewrite <- Hp.
  pose proof (make_request_response false (ws_world s1) (ws_world s2)
                (page_url d (page s1))) as Hresp.
  destruct (_make_request server false (ws_world s1) _) as [w1 r1].
  destruct (_make_request server false (ws_world s2) _) as [w2 r2].
  simpl in Hresp. subst r2.
  destruct r1 as [r|]; [|done].
  destruct (status_code r =? 200).
  - pose proof (extract_file_links_urls (text r) (page_url d (page s1)) now1 now2)
      as Hx.
    destruct (_extract_file_links _ _ _ now1) as [|f1 l1] eqn:E1;
      destruct (_extract_file_links _ _ _ now2) as [|f2 l2] eqn:E2;
      try discriminate Hx; [simpl; repeat split; congruence|].
    cbn -[unique_by_url].
    split; [done|]. split; [done|]. split; [done|].
    rewrite !fmap_app, Hu. f_equal. by apply unique_by_url_urls.
  - destruct (status_code r =? 404); simpl; repeat split; congruence.
Qed.

Lemma walk_loop_urls now1 now2 passes : ∀ s1 s2,
  page s1 = page s2 →
  consecutive_empty_pages s1 = consecutive_empty_pages s2 →
  url <$> all_files s1 = url <$> all_files s2 →
  url <$> all_files match walk_loop passes server now1 d max_pages s1 with
                    | Finished s => s | StillRunning s => s end
  = url <$> all_files match walk_loop passes server now2 d max_pages s2 with
                      | Finished s => s | StillRunning s => s end.
Proof.
  induction passes as [|passes IH]; intros s1 s2 Hp Hc Hu; simpl;
    rewrite <- Hp, <- Hc; destruct (_ && _); try done.
  destruct (walk_page_urls now1 now2 s1 s2 Hp Hc Hu) as (Hb & Hp' & Hc' & Hu').
  destruct (walk_page server now1 d s1) as [t1 b1].
  destruct (walk_page server now2 d s2) as [t2 b2].
  simpl in *. subst b2. destruct b1; [done|].
  apply IH; simpl; congruence.
Qed.

(** The urls a walk collects depend on the server alone. *)
Lemma walk_pages_urls now1 now2 w1 w2 :
  url <$> all_files (walk_pages server now1 w1 d max_pages)
  = url <$> all_files (walk_pages server now2 w2 d max_pages).
Proof. unfold walk_pages. by apply walk_loop_urls. Qed.

(** A walk all of whose urls are known returns no record. *)
Lemma walk_of_known_urls now w :
  (∀ f, f ∈ all_files (walk_pages server now w d max_pages) →
        files (cache w) !! url f ≠ None) →
  snd (discover_dataset_pages server now w d max_pages) = [].
Proof.
  intros Hknown. unfold discover_dataset_pages, merge_files.
  destruct (walk_pages_spec server now d max_pages w) as [[us Hw] _].
  destruct (walk_pages server now w d max_pages) as [ww found pg ce]. simpl in *.
  subst ww.
  pose proof (filter_known_all_known now (unique_by_url ∅ found)
                (cache (after_requests us w))) as Hnone.
  destruct (filter_known _ _ _) as [c1 nf]. simpl in *. apply Hnone.
  intros f Hf. apply Hknown. eapply elem_of_sublist; [exact Hf|].
  apply unique_by_url_sublist.
Qed.

(** After a walk every url it collected is known. *)
Lemma walk_makes_urls_known now w f :
  f ∈ all_files (walk_pages server now w d max_pages) →
  files (cache (fst (discover_dataset_pages server now w d max_pages))) !! url f ≠ None.
Proof.
  intros Hf.
  destruct (discover_dataset_pages_spec server now d max_pages w)
    as (_ & _ & _ & _ & _ & Hin & Hkeep & _).
  cbv zeta in Hin, Hkeep.
  destruct (decide (files (cache w) !! url f = None)) as [Hnone|Hsome];
    [|by apply Hkeep].
  unfold discover_dataset_pages, merge_files in *.
  destruct (walk_pages_spec server now d max_pages w) as [[us Hw] _].
  destruct (walk_pages server now w d max_pages) as [ww found pg ce]. simpl in *.
  subst ww.
  destruct (unique_by_url_covers found ∅ f Hf) as [Hempty|Hcov];
    [by apply not_elem_of_empty in Hempty|].
  apply list_elem_of_fmap in Hcov as (g & Hug & Hg).
  destruct (filter_known now (cache (after_requests us w)) (unique_by_url ∅ found))
    as [c1 nf] eqn:Hfk.
  apply filter_known_spec in Hfk as (_ & _ & Hall & _).
  simpl in *. rewrite Hug.
  destruct (Hin g) as (Hstored & _); [apply Hall; [done|by rewrite <- Hug]|].
  by rewrite Hstored.
Qed.

(** Within one process a second walk of a dataset returns no record
    and adds none: the url set and the counter of discoveries stay. *)
Lemma second_walk_adds_nothing now1 now2 w :
  let w1 := fst (discover_dataset_pages server now1 w d max_pages) in
  let w2 := fst (discover_dataset_pages server now2 w1 d max_pages) in
  snd (discover_dataset_pages server now2 w1 d max_pages) = []
  ∧ size (files (cache w2)) = size (files (cache w1))
  ∧ total_discovered (cache w2) = total_discovered (cache w1).
Proof.
  cbv zeta.
  assert (Hnone : snd (discover_dataset_pages server now2
                         (fst (discover_dataset_pages server now1 w d max_pages))
                         d max_pages) = []).
  { apply walk_of_known_urls. intros f Hf.
    assert (Hu : url f ∈ url <$> all_files (walk_pages server now1 w d max_pages)).
    { rewrite (walk_pages_urls now1 now2 w
                 (fst (discover_dataset_pages server now1 w d max_pages))).
      by apply list_elem_of_fmap_2. }
    apply list_elem_of_fmap in Hu as (g & -> & Hg).
    by apply walk_makes_urls_known. }
  split; [exact Hnone|].
  destruct (discover_dataset_pages_spec server now2 d max_pages
              (fst (discover_dataset_pages server now1 w d max_pages)))
    as (Hs & Hd & _).
  cbv zeta in Hs, Hd. rewrite Hnone in Hs, Hd. simpl in Hs, Hd.
  split; lia.
Qed.
End Rewalk.

(** C6. The code does not do what the claim says across two runs of the
    command. The first run against a server with one dataset of one file
    stores one record and downloads the file; its saves leave a truncated
    cache file, [json.dump] raising on the status of the record. The
    second run finds the file corrupted, starts from an empty cache and
    adds the record again, as a new record stamped with the time of the
    second run; the file itself is not fetched again but verified in
    place. *)
Theorem second_run_adds_the_records_again :
  ∃ w1 w2 w3 results,
    main (H:=sample_env) 11 server_one_file "t1" (DiscoverAll 1 false) empty_world
      = Some w1
    ∧ size (files (cache w1)) = 1%nat
    ∧ status <$> files (cache w1) !! url_ax = Some SUCCESS
    ∧ cache_file w1 = Some Truncated
    ∧ archiver_init "t2" w1 = Returned w2
    ∧ files (cache w2) = ∅
    ∧ discover_and_process_all (H:=sample_env) 11 server_one_file "t2" w2 1 true
      = Some (w3, results)
    ∧ r_total_files <$> results = [1]
    ∧ r_downloaded <$> results = [0]
    ∧ discovered_at <$> files (cache w3) !! url_ax = Some "t2"
    ∧ main (H:=sample_env) 11 server_one_file "t2" (DiscoverAll 1 false) w1 = Some w3.
Proof.
  eexists _, _, _, _.
  split; [vm_compute; reflexivity|].
  split; [vm_compute; reflexivity|].
  split; [vm_compute; reflexivity|].
  split; [vm_compute; reflexivity|].
  split; [vm_compute; reflexivity|].
  split; [vm_compute; reflexivity|].
  split; [vm_compute; reflexivity|].
  split; [vm_compute; reflexivity|].
  split; [vm_compute; reflexivity|].
  split; vm_compute; reflexivity.
Qed.

(** * Further properties of the code *)

(** ** Cache store: what a save gives back *)

(** X1. A cache without records survives a save and a load: what
    [_load_cache] returns after [_save_cache] is the cache that was saved,
    stamped with the time of the save; the set of scanned datasets comes
    back through its list. *)
Theorem save_then_load_without_records (now1 now2 : string) (w : World) :
  files (cache w) = ∅ →
  _load_cache now2 (_save_cache now1 w)
    = Returned (set_last_updated (Some now1) (cache w), [(INFO, "Cache loaded")]).
Proof.
  destruct w as [[v ca lu fs dss mx td tdl tf ts] p cf bf rq]. simpl. intros ->.
  assert (Hfile : cache_file
                    (_save_cache now1
                       (mkWorld (mkCacheState v ca lu ∅ dss mx td tdl tf ts) p cf bf rq))
                  = Some (Document
                            (mkCacheDoc (Some v) ca (Some now1) (Some ∅)
                               (Some (elements dss)) (Some mx) (Some td) (Some tdl)
                               (Some tf) (Some ts)))).
  { destruct cf; unfold _save_cache, json_dump, to_serializable; simpl;
      by rewrite decide_True. }
  unfold _load_cache. rewrite Hfile. simpl.
  unfold CacheState_from_dict, files_from_dict. simpl.
  rewrite map_fold_empty. simpl.
  unfold set_last_updated. simpl. by rewrite list_to_set_elements_L.
Qed.

Lemma save_then_load_without_records_witness :
  files (cache world_scanned) = ∅
  ∧ _load_cache "t2" (_save_cache "t1" world_scanned)
    = Returned (set_last_updated (Some "t1") (cache world_scanned),
                [(INFO, "Cache loaded")]).
Proof.
  split; [reflexivity|].
  apply (save_then_load_without_records "t1" "t2" world_scanned). reflexivity.
Defined.

(** X2. A cache that holds a record does not survive a save: the file is
    left truncated, the file that was there before is in the backup, and
    the next [_load_cache] logs the corruption and returns a fresh empty
    cache. *)
Theorem save_with_records_is_lost (now1 now2 : string) (w : World) :
  files (cache w) ≠ ∅ →
  cache_file (_save_cache now1 w) = Some Truncated
  ∧ (∀ old, cache_file w = Some old →
       backup_cache_file (_save_cache now1 w) = Some old)
  ∧ cache (_save_cache now1 w) = set_last_updated (Some now1) (cache w)
  ∧ _load_cache now2 (_save_cache now1 w)
    = Returned (new_CacheState now2, [(WARNING, "Cache corrupted")]).
Proof.
  intros Hne.
  assert (Hfile : cache_file (_save_cache now1 w) = Some Truncated).
  { destruct w as [c p [f|] b r]; unfold _save_cache, json_dump, to_serializable;
      simpl in *; by rewrite decide_False. }
  split; [exact Hfile|]. split; [|split; [apply save_cache_cache|]].
  - intros old Hold. destruct w as [c p f b r]. simpl in *. subst f.
    unfold _save_cache. simpl. by destruct (json_dump _).
  - unfold _load_cache. by rewrite Hfile.
Qed.

Lemma save_with_records_is_lost_witness :
  files (cache world_short_local) ≠ ∅
  ∧ _load_cache "t2" (_save_cache "t1" world_short_local)
    = Returned (new_CacheState "t2", [(WARNING, "Cache corrupted")]).
Proof.
  assert (Hne : files (cache world_short_local) ≠ ∅).
  { intros Heq. apply (f_equal (λ fs : gmap string FileMetadata, fs !! url_ax)) in Heq.
    vm_compute in Heq. discriminate Heq. }
  split; [exact Hne|].
  apply (save_with_records_is_lost "t1" "t2" world_short_local Hne).
Defined.

(** ** Downloader: the four ways a call ends *)

Lemma path_join_nonempty (dir name : string) : dir ≠ "" → path_join dir name ≠ "".
Proof.
  intros Hdir. unfold path_join. destruct name as [|c name]; [|case_match; [done|]];
    destruct dir; done.
Qed.

Lemma final_path_nonempty (m : FileMetadata) : final_path m ≠ "".
Proof. by apply path_join_nonempty. Qed.

(** Every call of [download_file] ends in one of four ways: nothing is
    done; the file on disk is accepted in place; a request is made and the
    download fails; a request is made and the body is stored. *)
Lemma download_file_outcome `{Env} server now w m :
  let w' := fst (fst (download_file server now w m)) in
  let m' := snd (fst (download_file server now w m)) in
  let res := snd (download_file server now w m) in
  (url m' = url m ∧ filename m' = filename m ∧ dataset m' = dataset m)
  ∧ ((w' = w ∧ m' = m ∧ res = (false, download_path m)
      ∧ status m = SUCCESS
      ∧ ∃ p, download_path m = Some p ∧ p ≠ "" ∧ is_Some (payloads w !! p))
     ∨ (∃ bytes,
          payloads w !! final_path m = Some bytes ∧ _verify_pdf bytes = true
          ∧ payloads w' = payloads w ∧ requests w' = requests w
          ∧ res = (false, Some (final_path m))
          ∧ status m' = SUCCESS ∧ download_path m' = Some (final_path m)
          ∧ file_size m' = Some (st_size bytes)
          ∧ checksum m' = Some (md5_hexdigest bytes)
          ∧ download_attempts m' = download_attempts m
          ∧ last_error m' = last_error m)
     ∨ (res = (false, None)
        ∧ status m' = FAILED ∧ is_Some (last_error m')
        ∧ requests w' = requests w ++ [url m]
        ∧ download_attempts m' = download_attempts m + 1
        ∧ download_path m' = download_path m
        ∧ (payloads w' = payloads w ∨ payloads w' = delete (temp_path m) (payloads w)))
     ∨ (∃ body,
          server (url m) = Reply 200 body
          ∧ _verify_pdf body = true ∧ 1024 ≤ st_size body
          ∧ payloads w' = <[final_path m := body]> (delete (temp_path m) (payloads w))
          ∧ requests w' = requests w ++ [url m]
          ∧ res = (true, Some (final_path m))
          ∧ status m' = SUCCESS ∧ download_path m' = Some (final_path m)
          ∧ file_size m' = Some (st_size body)
          ∧ checksum m' = Some (md5_hexdigest body)
          ∧ download_attempts m' = download_attempts m + 1
          ∧ last_error m' = None)).
Proof.
  unfold download_file, final_path, temp_path.
  set (final := path_join (_get_dataset_dir (dataset m)) (filename m)).
  set (temp := path_join (_get_dataset_dir (dataset m)) (filename m +:+ ".tmp")).
  destruct (match status m with SUCCESS => _ | _ => false end) eqn:Halready.
  { simpl. split; [done|]. left.
    destruct (status m); try discriminate Halready.
    destruct (download_path m) as [p|]; [|discriminate Halready].
    apply andb_prop in Halready as [Hp Hex].
    repeat split; try done. exists p. split; [done|]. split.
    - intros ->. discriminate Hp.
    - unfold path_exists in Hex. by apply bool_decide_eq_true in Hex. }
  clear Halready.
  destruct (match payloads w !! final with Some bytes => _ | None => None end)
    as [bytes|] eqn:Hplace.
  { simpl. split; [done|]. right. left. exists bytes.
    destruct (payloads w !! final) as [b|] eqn:Hfinal; [|discriminate Hplace].
    destruct (_verify_pdf b) eqn:Hv; [|discriminate Hplace].
    injection Hplace as <-. repeat split; done. }
  clear Hplace.
  pose proof (make_request_world server true w (url m)) as Hreq.
  unfold _make_request in *. simpl in Hreq |- *.
  assert (Hdel : ∀ x, delete temp (<[temp := x]> (payloads w)) = delete temp (payloads w))
    by (intros x; apply delete_insert_eq).
  destruct (server (url m)) as [code body|code body| |] eqn:Hsrv; simpl.
  - destruct (code =? 403) eqn:E403; simpl.
    { split; [done|]. right. right. left. repeat split; eauto. }
    destruct (code =? 200) eqn:E200; simpl.
    2:{ split; [done|]. right. right. left. repeat split; eauto. }
    apply Z.eqb_eq in E200 as ->.
    destruct (_verify_pdf body) eqn:Hv; simpl.
    2:{ split; [done|]. right. right. left. repeat split; eauto. }
    destruct (st_size body <? 1024) eqn:Hsize; simpl.
    { split; [done|]. right. right. left. repeat split; eauto. }
    apply Z.ltb_ge in Hsize.
    split; [done|]. right. right. right. exists body.
    unfold rename, write_file. simpl. rewrite lookup_insert_eq. simpl.
    rewrite Hdel. repeat split; done.
  - destruct (code =? 403) eqn:E403; simpl.
    { split; [done|]. right. right. left. repeat split; eauto. }
    destruct (code =? 200) eqn:E200; simpl.
    2:{ split; [done|]. right. right. left. repeat split; eauto. }
    split; [done|]. right. right. left. repeat split; eauto.
  - split; [done|]. right. right. left. repeat split; eauto.
  - split; [done|]. right. right. left. repeat split; eauto.
Qed.

(** X3. A call of [download_file] makes at most one request, for the url
    of the record, and the count of attempts goes up by one exactly when
    the request is made; it never goes down. *)
Theorem download_file_one_request `{Env} server now w m :
  let w' := fst (fst (download_file server now w m)) in
  let m' := snd (fst (download_file server now w m)) in
  (requests w' = requests w ∧ download_attempts m' = download_attempts m)
  ∨ (requests w' = requests w ++ [url m]
     ∧ download_attempts m' = download_attempts m + 1).
Proof.
  destruct (download_file_outcome server now w m) as (_ & Hcases). cbv zeta in *.
  destruct Hcases as [(-> & -> & _)|[(bytes & _ & _ & _ & Hr & _ & _ & _ & _ & _ & Ha & _)
                     |[(_ & _ & _ & Hr & Ha & _)|(body & _ & _ & _ & _ & Hr & _ & _ & _ & _ & _ & Ha & _)]]].
  - by left.
  - by left.
  - by right.
  - by right.
Qed.

(** X4. When [download_file] reports a download, the server has answered
    200 with a body that begins with the signature and has at least 1024
    bytes; that body is the file at the final path, the temporary file is
    gone, and the record is [SUCCESS] with the path, the size and the
    checksum of that file and no error. *)
Theorem download_file_reported_download `{Env} server now w m :
  let w' := fst (fst (download_file server now w m)) in
  let m' := snd (fst (download_file server now w m)) in
  fst (snd (download_file server now w m)) = true →
  ∃ body,
    server (url m) = Reply 200 body
    ∧ _verify_pdf body = true ∧ 1024 ≤ st_size body
    ∧ payloads w' !! final_path m = Some body
    ∧ payloads w' !! temp_path m = None
    ∧ status m' = SUCCESS
    ∧ download_path m' = Some (final_path m)
    ∧ file_size m' = Some (st_size body)
    ∧ checksum m' = Some (md5_hexdigest body)
    ∧ last_error m' = None.
Proof.
  destruct (download_file_outcome server now w m) as (_ & Hcases). cbv zeta in *.
  intros Hres.
  destruct Hcases as [(_ & _ & Hr & _)|[(bytes & _ & _ & _ & _ & Hr & _)
                     |[(Hr & _)|(body & Hsrv & Hv & Hsz & Hp & _ & _ & Hst & Hdp & Hfs & Hck & _ & Hle)]]];
    try (rewrite Hr in Hres; discriminate Hres).
  exists body. rewrite Hp.
  assert (Hne : temp_path m ≠ final_path m) by apply temp_path_ne_final.
  repeat split; try done.
  - apply lookup_insert_eq.
  - rewrite lookup_insert_ne by done. apply lookup_delete_eq.
Qed.

Lemma download_file_reported_download_witness :
  fst (snd (download_file (H:=sample_env) server_one_file "t1" world_pending record_x)) = true
  ∧ ∃ body, server_one_file (url record_x) = Reply 200 body ∧ 1024 ≤ st_size body.
Proof.
  assert (Hres : fst (snd (download_file (H:=sample_env) server_one_file "t1"
                             world_pending record_x)) = true)
    by (vm_compute; reflexivity).
  split; [exact Hres|].
  destruct (download_file_reported_download (H:=sample_env) server_one_file "t1"
              world_pending record_x Hres) as (body & Hsrv & _ & Hsz & _).
  exists body. split; [exact Hsrv|exact Hsz].
Defined.

(** X5. Whenever a call of [download_file] leaves the record [SUCCESS],
    its [download_path] is set and names a file that exists; and unless the
    record was [SUCCESS] before, that file is the one at the final path,
    it begins with the signature, and the size and the checksum of the
    record are those of the file. *)
Theorem download_file_success_has_file `{Env} server now w m :
  let w' := fst (fst (download_file server now w m)) in
  let m' := snd (fst (download_file server now w m)) in
  status m' = SUCCESS →
  ∃ p, download_path m' = Some p ∧ p ≠ "" ∧ is_Some (payloads w' !! p)
       ∧ (status m ≠ SUCCESS →
          p = final_path m
          ∧ ∃ bytes, payloads w' !! p = Some bytes ∧ _verify_pdf bytes = true
                     ∧ file_size m' = Some (st_size bytes)
                     ∧ checksum m' = Some (md5_hexdigest bytes)).
Proof.
  destruct (download_file_outcome server now w m) as (_ & Hcases). cbv zeta in *.
  intros Hsucc.
  destruct Hcases as [(-> & -> & _ & Hst & p & Hp & Hne & Hex)
                     |[(bytes & Hb & Hv & Hpl & _ & _ & _ & Hdp & Hfs & Hck & _)
                     |[(_ & Hst & _)|(body & _ & Hv & _ & Hpl & _ & _ & _ & Hdp & Hfs & Hck & _)]]].
  - exists p. repeat split; try done.
  - exists (final_path m). rewrite Hpl, Hb.
    split; [done|]. split; [apply final_path_nonempty|]. split; [eauto|].
    intros _. split; [done|]. exists bytes. done.
  - congruence.
  - exists (final_path m). rewrite Hpl, lookup_insert_eq.
    split; [done|]. split; [apply final_path_nonempty|]. split; [eauto|].
    intros _. split; [done|]. exists body. done.
Qed.

Lemma download_file_success_has_file_witness :
  status (snd (fst (download_file (H:=sample_env) server_one_file "t1"
                      world_pending record_x))) = SUCCESS
  ∧ ∃ p, download_path (snd (fst (download_file (H:=sample_env) server_one_file "t1"
                                    world_pending record_x))) = Some p
         ∧ p ≠ "".
Proof.
  assert (Hs : status (snd (fst (download_file (H:=sample_env) server_one_file "t1"
                                   world_pending record_x))) = SUCCESS)
    by (vm_compute; reflexivity).
  split; [exact Hs|].
  destruct (download_file_success_has_file (H:=sample_env) server_one_file "t1"
              world_pending record_x Hs) as (p & Hp & Hne & _).
  exists p. split; [exact Hp|exact Hne].
Defined.

(** The path of a record left [SUCCESS] is set and names a file. *)
Lemma download_file_success_path `{Env} server now w m :
  status (snd (fst (download_file server now w m))) = SUCCESS →
  ∃ p, download_path (snd (fst (download_file server now w m))) = Some p
       ∧ p ≠ "" ∧ is_Some (payloads (fst (fst (download_file server now w m))) !! p).
Proof.
  destruct (download_file_outcome server now w m) as (_ & Hcases). cbv zeta in *.
  intros Hsucc.
  destruct Hcases as [(-> & -> & _ & Hst & p & Hp & Hne & Hex)
                     |[(bytes & Hb & Hv & Hpl & _ & _ & _ & Hdp & _)
                     |[(_ & Hst & _)|(body & _ & Hv & _ & Hpl & _ & _ & _ & Hdp & _)]]].
  - exists p. done.
  - exists (final_path m). rewrite Hpl, Hb.
    split; [done|]. split; [apply final_path_nonempty|eauto].
  - congruence.
  - exists (final_path m). rewrite Hpl, lookup_insert_eq.
    split; [done|]. split; [apply final_path_nonempty|eauto].
Qed.

(** X6. A record that a call of [download_file] has left [SUCCESS] is not
    downloaded again: the next call, whatever the server and the time, makes
    no request and changes neither the record nor the world. *)
Theorem download_file_again_is_noop `{Env} server now server' now' w m :
  let w' := fst (fst (download_file server now w m)) in
  let m' := snd (fst (download_file server now w m)) in
  status m' = SUCCESS →
  download_file server' now' w' m' = (w', m', (false, download_path m')).
Proof.
  cbv zeta. intros Hsucc.
  destruct (download_file_success_path server now w m Hsucc)
    as (p & Hp & Hne & Hex).
  unfold download_file at 1. rewrite Hsucc, Hp.
  replace (String.eqb p "") with false by (symmetry; by apply String.eqb_neq).
  unfold path_exists. rewrite bool_decide_eq_true_2 by done. reflexivity.
Qed.

Lemma download_file_again_is_noop_witness :
  let r := download_file (H:=sample_env) server_one_file "t1" world_pending record_x in
  status (snd (fst r)) = SUCCESS
  ∧ download_file (H:=sample_env) server_error "t2" (fst (fst r)) (snd (fst r))
    = (fst (fst r), snd (fst r), (false, download_path (snd (fst r)))).
Proof.
  assert (Hs : status (snd (fst (download_file (H:=sample_env) server_one_file "t1"
                                   world_pending record_x))) = SUCCESS)
    by (vm_compute; reflexivity).
  split; [exact Hs|].
  apply (download_file_again_is_noop (H:=sample_env) server_one_file "t1"
           server_error "t2" world_pending record_x Hs).
Defined.

(** X7. For a record with a plain file name, a call of [download_file]
    that reports a failure has made its request and leaves the record
    [FAILED] with an error text and one more attempt. Of the payload files
    it changes none but the temporary file of the record, which is gone
    afterwards if it was written; without a stale temporary file the
    payload files are as they were. *)
Theorem download_file_reported_failure `{Env} server now w m :
  let w' := fst (fst (download_file server now w m)) in
  let m' := snd (fst (download_file server now w m)) in
  plain_name (filename m) = true →
  snd (download_file server now w m) = (false, None) →
  status m' = FAILED
  ∧ is_Some (last_error m')
  ∧ download_attempts m' = download_attempts m + 1
  ∧ requests w' = requests w ++ [url m]
  ∧ (∀ p, resolved_path p = true → p ≠ temp_path m →
       payloads w' !! p = payloads w !! p)
  ∧ (payloads w !! temp_path m = None → payloads w' = payloads w).
Proof.
  destruct (download_file_outcome server now w m) as (_ & Hcases). cbv zeta in *.
  intros _ Hres.
  destruct Hcases as [(_ & _ & Hr & Hst & p & Hp & _)|[(bytes & _ & _ & _ & _ & Hr & _)
                     |[(_ & Hst & Herr & Hrq & Ha & _ & Hpl)|(body & _ & _ & _ & _ & _ & Hr & _)]]];
    try (rewrite Hr in Hres; discriminate Hres).
  - rewrite Hr, Hp in Hres. discriminate Hres.
  - split; [done|]. split; [done|]. split; [done|]. split; [done|].
    destruct Hpl as [Hpl|Hpl]; rewrite Hpl.
    + done.
    + split.
      * intros p _ Hp. by rewrite lookup_delete_ne.
      * intros Hnone. by apply delete_id.
Qed.

Lemma download_file_reported_failure_witness :
  let r := download_file (H:=sample_env) server_short_body "t1" world_pending record_x in
  plain_name (filename record_x) = true
  ∧ snd r = (false, None)
  ∧ status (snd (fst r)) = FAILED
  ∧ payloads (fst (fst r)) = payloads world_pending.
Proof.
  assert (Hname : plain_name (filename record_x) = true) by reflexivity.
  assert (Hres : snd (download_file (H:=sample_env) server_short_body "t1"
                        world_pending record_x) = (false, None))
    by (vm_compute; reflexivity).
  split; [exact Hname|]. split; [exact Hres|].
  destruct (download_file_reported_failure (H:=sample_env) server_short_body "t1"
              world_pending record_x Hname Hres) as (Hst & _ & _ & _ & _ & Hdisk).
  split; [exact Hst|]. apply Hdisk. reflexivity.
Defined.

(** X8. For a record with a plain file name, a call of [download_file]
    touches two payload files at most, the final and the temporary file of
    the record: every other file is as before, and where no temporary file
    lay before none lies afterwards. *)
Theorem download_file_disk_frame `{Env} server now w m :
  let w' := fst (fst (download_file server now w m)) in
  plain_name (filename m) = true →
  (∀ p, resolved_path p = true → p ≠ final_path m → p ≠ temp_path m →
     payloads w' !! p = payloads w !! p)
  ∧ (payloads w !! temp_path m = None → payloads w' !! temp_path m = None).
Proof.
  destruct (download_file_outcome server now w m) as (_ & Hcases). cbv zeta in *.
  intros _.
  assert (Hne : temp_path m ≠ final_path m) by apply temp_path_ne_final.
  destruct Hcases as [(-> & _)|[(bytes & _ & _ & -> & _)
                     |[(_ & _ & _ & _ & _ & _ & [-> | ->])|(body & _ & _ & _ & -> & _)]]];
    try done.
  - split.
    + intros p _ _ Hp. by rewrite lookup_delete_ne.
    + intros _. apply lookup_delete_eq.
  - split.
    + intros p _ Hp1 Hp2. by rewrite lookup_insert_ne, lookup_delete_ne.
    + intros _. rewrite lookup_insert_ne by done. apply lookup_delete_eq.
Qed.

Lemma download_file_disk_frame_witness :
  let w := world_short_local in
  let w' := fst (fst (download_file (H:=sample_env) server_error "t1" w record_x)) in
  plain_name (filename record_x) = true
  ∧ resolved_path "/data/downloads/raw/dataset2/y.pdf" = true
  ∧ payloads w !! temp_path record_x = None
  ∧ payloads w' !! temp_path record_x = None
  ∧ payloads w' !! "/data/downloads/raw/dataset2/y.pdf"
    = payloads w !! "/data/downloads/raw/dataset2/y.pdf".
Proof.
  cbv zeta.
  assert (Hname : plain_name (filename record_x) = true) by reflexivity.
  assert (Hres : resolved_path "/data/downloads/raw/dataset2/y.pdf" = true)
    by (vm_compute; reflexivity).
  destruct (download_file_disk_frame (H:=sample_env) server_error "t1"
              world_short_local record_x Hname) as (Hother & Htemp).
  assert (Hnone : payloads world_short_local !! temp_path record_x = None)
    by (vm_compute; reflexivity).
  split; [exact Hname|]. split; [exact Hres|].
  split; [exact Hnone|]. split; [exact (Htemp Hnone)|].
  apply Hother; [exact Hres| |]; vm_compute; discriminate.
Defined.



(** ** Page walker: what is returned and what is stamped *)

Lemma filter_known_new_files now l : ∀ c,
  snd (filter_known now c l) = filter (λ f, files c !! url f = None) l.
Proof.
  induction l as [|f l IH]; intros c; simpl; [done|].
  rewrite filter_cons.
  destruct (files c !! url f) as [existing|] eqn:Hf.
  - rewrite decide_False by done. rewrite IH. simpl.
    apply list_filter_iff. intros g.
    destruct (decide (url f = url g)) as [Heq|Hne].
    + rewrite Heq, lookup_insert_eq, <- Heq, Hf. done.
    + by rewrite lookup_insert_ne.
  - rewrite decide_True by done.
    specialize (IH c). destruct (filter_known now c l) as [c1 nf]. simpl in *.
    by rewrite IH.
Qed.

Lemma set_last_checked_twice v m :
  set_last_checked v (set_last_checked v m) = set_last_checked v m.
Proof. reflexivity. Qed.

Lemma filter_known_restamp now l : ∀ c u m,
  files c !! u = Some m →
  files (fst (filter_known now c l)) !! u
    = Some (if decide (u ∈ url <$> l) then set_last_checked (Some now) m else m).
Proof.
  induction l as [|f l IH]; intros c u m Hm.
  - cbn [filter_known fst]. rewrite decide_False by (by intros ?%elem_of_nil). done.
  - cbn [filter_known]. rewrite fmap_cons.
    destruct (files c !! url f) as [existing|] eqn:Hf.
    + destruct (decide (url f = u)) as [Heq|Hne].
      * subst u. rewrite Hf in Hm. injection Hm as ->.
        rewrite (IH _ (url f) (set_last_checked (Some now) m))
          by (cbn [files set_files]; apply lookup_insert_eq).
        rewrite set_last_checked_twice.
        rewrite (decide_True (P := url f ∈ url f :: (url <$> l)))
          by apply list_elem_of_here.
        by case_decide.
      * rewrite (IH _ u m) by (cbn [files set_files]; by rewrite lookup_insert_ne).
        destruct (decide (u ∈ url <$> l)) as [Hin|Hout].
        -- rewrite decide_True; [done|]. by apply list_elem_of_further.
        -- rewrite decide_False; [done|].
           intros [?|?]%elem_of_cons; congruence.
    + specialize (IH c u m Hm).
      destruct (filter_known now c l) as [c1 nf]. cbn [fst] in *. rewrite IH.
      assert (url f ≠ u) by congruence.
      destruct (decide (u ∈ url <$> l)) as [Hin|Hout].
      * rewrite decide_True; [done|]. by apply list_elem_of_further.
      * rewrite decide_False; [done|].
        intros [?|?]%elem_of_cons; congruence.
Qed.

Lemma unique_by_url_same_urls l : ∀ seen u,
  u ∉ seen → (u ∈ url <$> unique_by_url seen l ↔ u ∈ url <$> l).
Proof.
  intros seen u Hu. split.
  - intros (f & -> & Hf)%list_elem_of_fmap. apply list_elem_of_fmap_2.
    eapply elem_of_sublist; [exact Hf|apply unique_by_url_sublist].
  - intros (f & -> & Hf)%list_elem_of_fmap.
    destruct (unique_by_url_covers l seen f Hf); done.
Qed.

Section WalkRecords.
Context `{Env} (server : string → Transport) (now : string) (d max_pages : Z).

(** The record the extractor makes of a link. *)
Lemma extract_file_links_shape html u :
  Forall (λ f, ∃ file_url name,
            f = mkFileMetadata file_url name d now None PENDING None None None 0
                  None None)
    (_extract_file_links html u d now).
Proof.
  unfold _extract_file_links. apply Forall_forall. intros f Hf.
  apply list_elem_of_fmap in Hf as ([u' n] & -> & _). eauto.
Qed.

Lemma walk_loop_all_files_shape (P : FileMetadata → Prop) passes : ∀ s,
  (∀ html u, Forall P (_extract_file_links html u d now)) →
  Forall P (all_files s) →
  Forall P (all_files match walk_loop passes server now d max_pages s with
                      | Finished s' => s'
                      | StillRunning s' => s'
                      end).
Proof.
  intros s HP. revert s.
  induction passes as [|passes IH]; intros s Hs; simpl;
    destruct (_ && _); try done.
  assert (Hp : Forall P (all_files (fst (walk_page server now d s)))).
  { unfold walk_page.
    destruct (_make_request _ _ _ _) as [w [r|]]; [|done].
    destruct (status_code r =? 200).
    - pose proof (HP (text r) (page_url d (page s))) as Hx.
      destruct (_extract_file_links _ _ _ _) as [|f l]; [done|]. simpl.
      apply Forall_app. split; [done|].
      eapply Forall_of_sublist; [apply (unique_by_url_sublist (f :: l) ∅)|exact Hx].
    - destruct (status_code r =? 404); done. }
  destruct (walk_page server now d s) as [s1 broke]. simpl in Hp.
  destruct broke; [done|]. by apply IH.
Qed.

(** The records and the cache after [discover_dataset_pages] in terms of
    the records the walk collected. *)
Lemma discover_dataset_pages_result w :
  let found := all_files (walk_pages server now w d max_pages) in
  let w' := fst (discover_dataset_pages server now w d max_pages) in
  snd (discover_dataset_pages server now w d max_pages)
    = filter (λ f, files (cache w) !! url f = None) (unique_by_url ∅ found)
  ∧ (∀ u m, files (cache w) !! u = Some m →
       files (cache w') !! u
         = Some (if decide (u ∈ url <$> found)
                 then set_last_checked (Some now) m else m))
  ∧ datasets_scanned (cache w') = {[d]} ∪ datasets_scanned (cache w)
  ∧ max_dataset_found (cache w') = max_dataset_found (cache w).
Proof.
  cbv zeta. unfold discover_dataset_pages, merge_files.
  destruct (walk_pages_spec server now d max_pages w) as [[us Hw] _].
  destruct (walk_pages server now w d max_pages) as [ww found pg ce]. simpl in *.
  subst ww. unfold after_requests. simpl.
  assert (Hframe2 : ∀ l c, datasets_scanned (fst (filter_known now c l)) = datasets_scanned c
                           ∧ max_dataset_found (fst (filter_known now c l)) = max_dataset_found c).
  { induction l as [|f l IH]; intros c; simpl; [done|].
    destruct (files c !! url f).
    - destruct (IH (set_files (<[url f:=set_last_checked (Some now) f0]> (files c)) c)) as [-> ->].
      done.
    - specialize (IH c). destruct (filter_known now c l). simpl in *. done. }
  pose proof (Hframe2 (unique_by_url ∅ found) (cache w)) as Hf2.
  pose proof (filter_known_new_files now (unique_by_url ∅ found) (cache w)) as Hnew.
  pose proof (filter_known_restamp now (unique_by_url ∅ found) (cache w)) as Hstamp.
  pose proof (filter_known_spec now (unique_by_url ∅ found) (cache w)) as Hspec.
  destruct (filter_known now (cache w) (unique_by_url ∅ found)) as [c1 nf].
  simpl in *.
  destruct (Hspec c1 nf eq_refl) as (Hsub & Hunk & _ & Hkeys & _). clear Hspec.
  rewrite save_cache_cache. simpl.
  split; [exact Hnew|].
  assert (Hnd : NoDup (url <$> nf)).
  { apply (sublist_NoDup (url <$> nf) (url <$> unique_by_url ∅ found));
      [apply unique_by_url_NoDup|by apply fmap_sublist]. }
  assert (Hfresh : Forall (λ f, files c1 !! url f = None) nf).
  { eapply Forall_impl; [exact Hunk|]. intros f Hf. by apply Hkeys. }
  destruct (add_new_files_spec nf c1 Hnd Hfresh) as (_ & _ & _ & _ & _ & Aout).
  split.
  { intros u m Hm. rewrite Aout.
    - rewrite (Hstamp u m Hm).
      destruct (decide (u ∈ url <$> found)) as [Hin|Hout].
      + rewrite decide_True; [done|]. by apply unique_by_url_same_urls.
      + rewrite decide_False; [done|].
        intros Hin. apply Hout. by apply (unique_by_url_same_urls found ∅).
    - intros (f & -> & Hf)%list_elem_of_fmap.
      eapply Forall_forall in Hunk; [|exact Hf]. simpl in Hunk. congruence. }
  assert (Hframe : ∀ l c, datasets_scanned (add_new_files c l) = datasets_scanned c
                          ∧ max_dataset_found (add_new_files c l) = max_dataset_found c).
  { induction l as [|f l IH]; intros c; simpl; [done|]. by rewrite !(proj1 (IH _)), !(proj2 (IH _)). }
  destruct (Hframe nf c1) as [-> ->]. destruct Hf2 as [-> ->]. done.
Qed.
End WalkRecords.

(** Every save leaves the cache file in step with the cache in memory,
    and the walker, the discoverer and the dataset processor end with a
    save. *)
Lemma save_cache_current now w : cache_file_current (_save_cache now w).
Proof.
  unfold cache_file_current. rewrite save_cache_cache.
  destruct w as [c p [f|] b r]; unfold _save_cache; simpl;
    destruct (json_dump _); reflexivity.
Qed.

Lemma discover_dataset_pages_current `{Env} server now w d max_pages :
  cache_file_current (fst (discover_dataset_pages server now w d max_pages)).
Proof.
  unfold discover_dataset_pages, merge_files.
  destruct (filter_known _ _ _). apply save_cache_current.
Qed.

Lemma discover_all_datasets_current server now w start threshold passes w' l :
  discover_all_datasets passes server now w start threshold = Some (w', l) →
  cache_file_current w'.
Proof.
  unfold discover_all_datasets.
  destruct (discover_loop _ _ _ _ _) as [s'|]; [|done].
  intros [= <- _]. apply save_cache_current.
Qed.

Lemma process_dataset_current `{Env} server now w d download :
  cache_file_current (fst (process_dataset server now w d download)).
Proof.
  unfold process_dataset.
  pose proof (discover_dataset_pages_current server now w d 1000) as Hcur.
  destruct (discover_dataset_pages server now w d 1000) as [w1 new_files].
  destruct new_files as [|f rest]; [exact Hcur|].
  destruct download; [destruct (download_files _ _ _ _ _ _ _)|];
    apply save_cache_current.
Qed.


(** X10. [discover_dataset_pages] returns, in the order of discovery, the
    first record of every url the walk collected that the cache did not
    know. The records returned have pairwise different urls, are as the
    extractor made them (pending, no attempt, the dataset walked, stamped
    with the time of the walk) and are the objects now stored under their
    urls. No payload file is touched; the walk ends with a save, which
    leaves the cache file in step with the cache in memory. *)
Theorem walker_returns_first_unknown_records `{Env} server now w d max_pages :
  let found := all_files (walk_pages server now w d max_pages) in
  let w' := fst (discover_dataset_pages server now w d max_pages) in
  let new_files := snd (discover_dataset_pages server now w d max_pages) in
  new_files = filter (λ f, files (cache w) !! url f = None) (unique_by_url ∅ found)
  ∧ NoDup (url <$> new_files)
  ∧ Forall (λ f, ∃ file_url name,
              f = mkFileMetadata file_url name d now None PENDING None None None 0
                    None None) new_files
  ∧ (∀ f, f ∈ new_files → files (cache w') !! url f = Some f)
  ∧ payloads w' = payloads w
  ∧ cache_file_current w'.
Proof.
  cbv zeta.
  destruct (discover_dataset_pages_result server now d max_pages w) as (Hnew & _).
  destruct (discover_dataset_pages_spec server now d max_pages w)
    as (_ & _ & _ & _ & Hnd & Hin & _ & Hpl).
  cbv zeta in *.
  split; [exact Hnew|]. split; [exact Hnd|].
  split; [|split; [|split; [exact Hpl|apply discover_dataset_pages_current]]].
  - rewrite Hnew.
    eapply Forall_of_sublist; [apply sublist_filter|].
    eapply Forall_of_sublist; [apply unique_by_url_sublist|].
    apply (walk_loop_all_files_shape server now d max_pages _ (Z.to_nat max_pages)
             (mkWalkState w [] 0 0)); [|constructor].
    intros html u. apply extract_file_links_shape.
  - intros f Hf. by destruct (Hin f Hf).
Qed.

(** X11. A record the cache knew before a walk is kept under its url:
    when the walk came across its url, only its [last_checked] is set, to
    the time of the walk; otherwise it is unchanged. The walk adds the
    dataset to [datasets_scanned] and leaves [max_dataset_found] alone. *)
Theorem walker_stamps_known_records `{Env} server now w d max_pages u m :
  let found := all_files (walk_pages server now w d max_pages) in
  let w' := fst (discover_dataset_pages server now w d max_pages) in
  files (cache w) !! u = Some m →
  files (cache w') !! u
    = Some (if decide (u ∈ url <$> found) then set_last_checked (Some now) m else m)
  ∧ datasets_scanned (cache w') = {[d]} ∪ datasets_scanned (cache w)
  ∧ max_dataset_found (cache w') = max_dataset_found (cache w).
Proof.
  cbv zeta. intros Hm.
  destruct (discover_dataset_pages_result server now d max_pages w)
    as (_ & Hstamp & Hds & Hmax).
  cbv zeta in *. split; [by apply Hstamp|done].
Qed.

Lemma walker_stamps_known_records_witness :
  let w' := fst (discover_dataset_pages (H:=sample_env) server_one_file "t1"
                   world_pending 1 1000) in
  files (cache world_pending) !! url_ax = Some record_x
  ∧ files (cache w') !! url_ax = Some (set_last_checked (Some "t1") record_x).
Proof.
  cbv zeta.
  assert (Hm : files (cache world_pending) !! url_ax = Some record_x)
    by (vm_compute; reflexivity).
  split; [exact Hm|].
  destruct (walker_stamps_known_records (H:=sample_env) server_one_file "t1"
              world_pending 1 1000 url_ax record_x Hm) as (Hstamp & _).
  rewrite Hstamp. rewrite decide_True; [reflexivity|].
  vm_compute. apply list_elem_of_here.
Defined.

(** ** Dataset discoverer: the requests and the mark *)

Lemma foldr_max_init (a b : Z) (l : list Z) :
  foldr Z.max (Z.max a b) l = Z.max b (foldr Z.max a l).
Proof. induction l as [|x l IH]; simpl; [lia|]. rewrite IH. lia. Qed.

Lemma foldr_max_bounds (a : Z) (l : list Z) :
  a ≤ foldr Z.max a l ∧ ∀ x, x ∈ l → x ≤ foldr Z.max a l.
Proof.
  induction l as [|y l [IHa IHl]]; simpl.
  - split; [lia|]. by intros x ?%elem_of_nil.
  - split; [lia|]. intros x [->|Hx]%elem_of_cons; [lia|].
    specialize (IHl x Hx). lia.
Qed.

Section DiscoveryWorld.
Context (server : string → Transport) (now : string) (threshold : Z).

(** What one pass of the discovery loop does to the world. *)
Lemma probe_dataset_world s :
  let w := ds_world s in
  let w' := ds_world (probe_dataset server now s) in
  requests w' = requests w ++ [dataset_url (current_dataset s)]
  ∧ payloads w' = payloads w
  ∧ files (cache w') = files (cache w)
  ∧ max_dataset_found (cache w')
      = (if dataset_exists server (current_dataset s)
         then Z.max (max_dataset_found (cache w)) (current_dataset s)
         else max_dataset_found (cache w)).
Proof.
  cbv zeta. unfold probe_dataset, dataset_exists.
  pose proof (make_request_world server false (ds_world s)
                (dataset_url (current_dataset s))) as Hw.
  assert (Hresp : snd (_make_request server false (ds_world s)
                         (dataset_url (current_dataset s)))
                  = match server (dataset_url (current_dataset s)) with
                    | Reply code body =>
                        if code =? 403 then None else Some (mkResponse code body true)
                    | _ => None
                    end).
  { unfold _make_request. destruct (server _); simpl; repeat case_match; done. }
  destruct (_make_request server false (ds_world s) _) as [w1 resp]. simpl in Hw, Hresp.
  subst w1 resp.
  assert (Hsave : ∀ w0 : World,
            requests (if (current_dataset s + 1) mod 10 =? 0
                      then _save_cache now w0 else w0) = requests w0
            ∧ payloads (if (current_dataset s + 1) mod 10 =? 0
                        then _save_cache now w0 else w0) = payloads w0
            ∧ files (cache (if (current_dataset s + 1) mod 10 =? 0
                            then _save_cache now w0 else w0)) = files (cache w0)
            ∧ max_dataset_found (cache (if (current_dataset s + 1) mod 10 =? 0
                                        then _save_cache now w0 else w0))
              = max_dataset_found (cache w0)).
  { intros w0. destruct (_ =? 0); [|done].
    by rewrite save_cache_requests, save_cache_payloads, save_cache_cache. }
  destruct (server (dataset_url (current_dataset s))) as [code body|code body| |];
    simpl; try (destruct (Hsave (after_requests [dataset_url (current_dataset s)]
                                   (ds_world s))) as (-> & -> & -> & ->); done).
  destruct (code =? 403) eqn:E403; simpl.
  { apply Z.eqb_eq in E403 as ->. simpl.
    destruct (Hsave (after_requests [dataset_url (current_dataset s)] (ds_world s)))
      as (-> & -> & -> & ->). done. }
  destruct (code =? 200); simpl.
  - match goal with |- context [if ?c then _save_cache now ?w0 else ?w0] =>
      destruct (Hsave w0) as (-> & -> & -> & ->) end.
    destruct (max_dataset_found (cache (ds_world s)) <? current_dataset s) eqn:E; simpl.
    + apply Z.ltb_lt in E. repeat split; try done. lia.
    + apply Z.ltb_ge in E. repeat split; try done. lia.
  - destruct (Hsave (after_requests [dataset_url (current_dataset s)] (ds_world s)))
      as (-> & -> & -> & ->). done.
Qed.

(** What the whole loop has done to the world when it is left. *)
Lemma discover_loop_world passes : ∀ s s',
  discover_loop passes server now threshold s = Finished s' →
  ∃ n : nat,
    current_dataset s' = current_dataset s + Z.of_nat n
    ∧ requests (ds_world s')
        = requests (ds_world s) ++ (dataset_url <$> seqZ (current_dataset s) (Z.of_nat n))
    ∧ payloads (ds_world s') = payloads (ds_world s)
    ∧ files (cache (ds_world s')) = files (cache (ds_world s))
    ∧ max_dataset_found (cache (ds_world s'))
        = foldr Z.max (max_dataset_found (cache (ds_world s)))
            (filter (λ d, dataset_exists server d)
               (seqZ (current_dataset s) (Z.of_nat n))).
Proof.
  induction passes as [|passes IH]; intros s s'; simpl;
    destruct (consecutive_failures s <? threshold) eqn:E; try done.
  - intros [= <-]. exists 0%nat. simpl. by rewrite Z.add_0_r, app_nil_r.
  - intros Hrun. apply IH in Hrun as (n & Hn & Hrq & Hpl & Hfs & Hmax).
    destruct (probe_dataset_vars server now s) as (_ & _ & Hcur).
    destruct (probe_dataset_world s) as (Prq & Ppl & Pfs & Pmax). cbv zeta in *.
    exists (S n). rewrite Hn, Hrq, Hpl, Hfs, Hmax, Hcur, Prq, Ppl, Pfs, Pmax.
    rewrite Nat2Z.inj_succ, (seqZ_cons (current_dataset s)) by lia.
    rewrite Z.pred_succ, fmap_cons, filter_cons, <- app_assoc.
    replace (Z.succ (current_dataset s)) with (current_dataset s + 1) by lia.
    split; [lia|]. split; [done|]. split; [done|]. split; [done|].
    destruct (dataset_exists server (current_dataset s)); simpl; [|done].
    apply foldr_max_init.
  - intros [= <-]. exists 0%nat. simpl. by rewrite Z.add_0_r, app_nil_r.
Qed.
End DiscoveryWorld.

(** X12. When [discover_all_datasets] returns, it has requested the
    listing of the ids from the start on, one request each and in order,
    and nothing else; the list returned holds those of them that exist;
    [max_dataset_found] is the largest of its old value and the ids found,
    so no smaller than any id returned; the records of the cache and the
    payload files are untouched, and the save at the end leaves the cache
    file in step with the cache in memory. *)
Theorem discovery_probes_ids_in_order server now w start threshold passes w' l :
  discover_all_datasets passes server now w start threshold = Some (w', l) →
  ∃ n : nat,
    l = filter (λ d, dataset_exists server d) (seqZ start (Z.of_nat n))
    ∧ requests w' = requests w ++ (dataset_url <$> seqZ start (Z.of_nat n))
    ∧ max_dataset_found (cache w') = foldr Z.max (max_dataset_found (cache w)) l
    ∧ max_dataset_found (cache w) ≤ max_dataset_found (cache w')
    ∧ (∀ d, d ∈ l → d ≤ max_dataset_found (cache w'))
    ∧ files (cache w') = files (cache w)
    ∧ payloads w' = payloads w
    ∧ cache_file_current w'.
Proof.
  intros Hret. pose proof (discover_all_datasets_current _ _ _ _ _ _ _ _ Hret) as Hcur.
  revert Hret Hcur. unfold discover_all_datasets.
  destruct (discover_loop _ _ _ _ _) as [s'|] eqn:Hrun; [|done].
  intros [= <- <-] Hcur.
  pose proof Hrun as Hrun2.
  apply discover_loop_world in Hrun as (n & Hn & Hrq & Hpl & Hfs & Hmax).
  apply discover_loop_finished in Hrun2 as (n2 & Hn2 & Hl & _);
    simpl in *; [| lia | intros i Hi; lia].
  assert (n2 = n) as -> by lia.
  exists n. rewrite save_cache_requests, save_cache_payloads, save_cache_cache. simpl.
  rewrite Hl, Hrq, Hmax, Hfs, Hpl.
  destruct (foldr_max_bounds (max_dataset_found (cache w))
              (filter (λ d, dataset_exists server d) (seqZ start (Z.of_nat n))))
    as [Hlow Hup].
  repeat split; done.
Qed.

Lemma discovery_probes_ids_in_order_witness :
  ∃ w' l,
    discover_all_datasets 13 server_123 "t1" empty_world 1 10 = Some (w', l)
    ∧ max_dataset_found (cache empty_world) ≤ max_dataset_found (cache w')
    ∧ payloads w' = payloads empty_world.
Proof.
  destruct (discover_all_datasets 13 server_123 "t1" empty_world 1 10)
    as [[w' l]|] eqn:E; [|vm_compute in E; discriminate E].
  exists w', l. split; [reflexivity|].
  destruct (discovery_probes_ids_in_order server_123 "t1" empty_world 1 10 13 w' l E)
    as (n & _ & _ & _ & Hle & _ & _ & Hpl & _).
  split; [exact Hle|exact Hpl].
Defined.

(** ** Run controller: the counts of a dataset and the counters of the cache *)

(** What a result pair adds to each of the three counts of [results]. *)
Lemma count_result_adds m res r :
  r_dataset (count_result m res r) = r_dataset r
  ∧ r_total_files (count_result m res r) = r_total_files r
  ∧ r_downloaded (count_result m res r)
      = r_downloaded r + (if fst res then 1 else 0)
  ∧ r_skipped (count_result m res r)
      = r_skipped r + (if fst res then 0 else if snd res is Some _ then 1 else 0)
  ∧ r_failed (count_result m res r)
      = r_failed r + (if fst res then 0 else if snd res is Some _ then 0 else 1).
Proof. destruct res as [[|] [p|]]; simpl; repeat split; lia. Qed.

(** For a record that is not [SUCCESS], what the result pair of
    [download_file] says is what the counters of the cache record. *)
Lemma download_file_counts `{Env} server now w m :
  let w' := fst (fst (download_file server now w m)) in
  let m' := snd (fst (download_file server now w m)) in
  let res := snd (download_file server now w m) in
  status m ≠ SUCCESS →
  total_downloaded (cache w')
    = total_downloaded (cache w) + (if fst res then 1 else 0)
  ∧ total_skipped (cache w')
    = total_skipped (cache w) + (if fst res then 0 else if snd res is Some _ then 1 else 0)
  ∧ total_failed (cache w')
    = total_failed (cache w) + (if fst res then 0 else if snd res is Some _ then 0 else 1)
  ∧ (status m' = SUCCESS ∨ status m' = FAILED).
Proof.
  cbv zeta. intros Hst. unfold download_file.
  replace (match status m with SUCCESS => _ | _ => false end) with false
    by (destruct (status m); done).
  destruct (match payloads w !! _ with Some bytes => _ | None => None end) as [bytes|].
  { simpl. repeat split; try lia. by left. }
  pose proof (make_request_world server true w (url m)) as Hreq.
  simpl in Hreq |- *.
  destruct (_make_request server true w (url m)) as [w1 resp]. simpl in Hreq. subst w1.
  destruct resp as [r|]; [|simpl; repeat split; try lia; by right].
  destruct (status_code r =? 200); simpl; [|repeat split; try lia; by right].
  destruct (intact r); simpl; [|repeat split; try lia; by right].
  destruct (_verify_pdf (text r)); simpl; [|repeat split; try lia; by right].
  destruct (st_size (text r) <? 1024); simpl; [repeat split; try lia; by right|].
  rewrite !rename_cache. simpl. repeat split; try lia. by left.
Qed.

Section Accounting.
Context `{Env} (server : string → Transport) (now : string).

(** The download loop over records of the cache that are pending and have
    pairwise different urls. *)
Lemma download_files_accounting total todo : ∀ i w r,
  NoDup (url <$> todo) →
  (∀ f, f ∈ todo → ∃ m, files (cache w) !! url f = Some m ∧ status m = PENDING) →
  let w' := fst (download_files server now total i todo w r) in
  let r' := snd (download_files server now total i todo w r) in
  r_dataset r' = r_dataset r
  ∧ r_total_files r' = r_total_files r
  ∧ r_downloaded r' - r_downloaded r
      = total_downloaded (cache w') - total_downloaded (cache w)
  ∧ r_skipped r' - r_skipped r = total_skipped (cache w') - total_skipped (cache w)
  ∧ r_failed r' - r_failed r = total_failed (cache w') - total_failed (cache w)
  ∧ (r_downloaded r' + r_skipped r' + r_failed r')
      = (r_downloaded r + r_skipped r + r_failed r) + Z.of_nat (length todo)
  ∧ total_discovered (cache w') = total_discovered (cache w)
  ∧ (∀ f, f ∈ todo → ∃ m, files (cache w') !! url f = Some m
                           ∧ (status m = SUCCESS ∨ status m = FAILED))
  ∧ (∀ u, u ∉ url <$> todo → files (cache w') !! u = files (cache w) !! u).
Proof.
  induction todo as [|f todo IH]; intros i w r Hnd Hpend; cbv zeta.
  { simpl. repeat split; try lia; try done. by intros f ?%elem_of_nil. }
  rewrite fmap_cons in Hnd. apply NoDup_cons in Hnd as [Hf Hnd].
  destruct (Hpend f) as (m & Hm & Hst); [apply list_elem_of_here|].
  destruct (download_object_spec server now w f m Hm)
    as (Hfiles & Hd & (Hc1 & Hc2 & Hc3) & _ & Hobj & Hres).
  destruct (download_file_counts server now w m) as (Dd & Ds & Df & Dst);
    [congruence|]. cbv zeta in *.
  cbn [download_files].
  destruct (download_object server now w f) as [[w1 m1] res]. simpl in *.
  subst m1. rewrite <- Hres in *.
  set (w2 := if (i mod 10 =? 0) || (i =? total) then _save_cache now w1 else w1).
  assert (Hw2 : cache w2 = cache w1 ∨ cache w2 = set_last_updated (Some now) (cache w1)).
  { subst w2. destruct (_ || _); [right; apply save_cache_cache|by left]. }
  assert (Hc : files (cache w2) = files (cache w1)
               ∧ total_discovered (cache w2) = total_discovered (cache w1)
               ∧ total_downloaded (cache w2) = total_downloaded (cache w1)
               ∧ total_skipped (cache w2) = total_skipped (cache w1)
               ∧ total_failed (cache w2) = total_failed (cache w1))
    by (destruct Hw2 as [-> | ->]; done).
  destruct Hc as (Wf & Wd & Wdl & Wsk & Wfl).
  destruct (count_result_adds (snd (fst (download_file server now w m))) res r)
    as (Cds & Ctf & Cdl & Csk & Cfl).
  destruct (IH (i + 1) w2 (count_result (snd (fst (download_file server now w m))) res r)
              Hnd) as (I1 & I2 & I3 & I4 & I5 & I6 & I7 & I8 & I9).
  { intros g Hg. destruct (Hpend g) as (mg & Hmg & Hsg); [by apply list_elem_of_further|].
    exists mg. split; [|done]. rewrite Wf, Hfiles, lookup_insert_ne; [done|].
    intros Heq. apply Hf. rewrite Heq. by apply list_elem_of_fmap_2. }
  cbv zeta in *.
  split; [congruence|]. split; [congruence|].
  split; [rewrite Cdl in I3; lia|]. split; [rewrite Csk in I4; lia|].
  split; [rewrite Cfl in I5; lia|].
  split.
  { rewrite I6, Cdl, Csk, Cfl. simpl length. destruct res as [[|] [p|]]; simpl; lia. }
  split; [lia|]. split.
  - intros g [->|Hg]%elem_of_cons; [|by apply I8].
    rewrite I9; [|done]. rewrite Wf, Hfiles, lookup_insert_eq. eauto.
  - intros u Hu. apply not_elem_of_cons in Hu as [Hne Hu].
    rewrite I9 by done. rewrite Wf, Hfiles. by rewrite lookup_insert_ne.
Qed.
End Accounting.

(** X13. The counts [process_dataset] reports are the changes of the
    counters of the cache: [total_files] is the growth of
    [total_discovered], the numbers downloaded, skipped and failed are the
    growth of [total_downloaded], [total_skipped] and [total_failed]. With
    downloads every new record is counted in exactly one of the three;
    without, all three are 0. *)
Theorem process_dataset_accounting `{Env} server now w d download :
  let w' := fst (process_dataset server now w d download) in
  let r := snd (process_dataset server now w d download) in
  r_dataset r = d
  ∧ 0 ≤ r_total_files r
  ∧ r_total_files r = total_discovered (cache w') - total_discovered (cache w)
  ∧ r_downloaded r = total_downloaded (cache w') - total_downloaded (cache w)
  ∧ r_skipped r = total_skipped (cache w') - total_skipped (cache w)
  ∧ r_failed r = total_failed (cache w') - total_failed (cache w)
  ∧ r_downloaded r + r_skipped r + r_failed r
      = (if download then r_total_files r else 0).
Proof.
  cbv zeta. unfold process_dataset.
  destruct (discover_dataset_pages_spec server now d 1000 w)
    as (_ & Hd & (Hc1 & Hc2 & Hc3) & _ & Hnd & Hin & _).
  destruct (discover_dataset_pages server now w d 1000) as [w1 new_files].
  simpl in Hd, Hc1, Hc2, Hc3, Hnd, Hin.
  destruct new_files as [|f rest].
  { simpl in *. repeat split; try lia. by destruct download. }
  set (nf := f :: rest) in *.
  destruct download.
  - pose proof (download_files_accounting server now (Z.of_nat (length nf)) nf 1 w1
                  (mkDatasetResult d (Z.of_nat (length nf)) 0 0 0 0) Hnd) as Hacc.
    destruct Hacc as (A1 & A2 & A3 & A4 & A5 & A6 & A7 & _).
    { intros g Hg. exists g. destruct (Hin g Hg) as (? & ? & _). done. }
    cbv zeta in *.
    destruct (download_files _ _ _ _ _ _ _) as [w2 r2]. simpl in *.
    rewrite save_cache_cache. simpl. subst nf. simpl length in *.
    repeat split; try lia.
  - simpl. rewrite save_cache_cache. simpl. subst nf. simpl length in *.
    repeat split; lia.
Qed.

(** ** Run controller: the totals of a run *)


Section RunTotals.
Context `{Env} (server : string → Transport) (now : string).




End RunTotals.





(** ** Run controller: discovery without download *)

Lemma discover_dataset_pages_requests `{Env} server now w d max_pages :
  ∃ k : nat,
    Z.of_nat k ≤ Z.max 0 max_pages
    ∧ requests (fst (discover_dataset_pages server now w d max_pages))
      = requests w ++ (page_url d <$> seqZ 0 (Z.of_nat k)).
Proof.
  unfold discover_dataset_pages, merge_files, walk_pages.
  destruct (walk_loop_finishes server now d max_pages (Z.to_nat max_pages)
              (mkWalkState w [] 0 0)) as (s' & k & -> & Hk & Hw); simpl; [lia|].
  exists k. rewrite Z.sub_0_r in Hk. split; [done|].
  destruct (filter_known _ _ _) as [c1 nf]. simpl.
  rewrite save_cache_requests. simpl. by rewrite Hw.
Qed.

(** X15. Processing a dataset without download requests pages of its
    listing only, consecutive from page 0 and at most 1000 of them; it
    touches no payload file, counts no download, failure or skip, and
    reports none; it ends after a save, with the cache file in step with
    the cache in memory. *)
Theorem discover_only_requests_pages_only `{Env} server now w d :
  let w' := fst (process_dataset server now w d false) in
  let r := snd (process_dataset server now w d false) in
  (∃ k : nat, Z.of_nat k ≤ 1000
              ∧ requests w' = requests w ++ (page_url d <$> seqZ 0 (Z.of_nat k)))
  ∧ payloads w' = payloads w
  ∧ same_download_counters (cache w) (cache w')
  ∧ r_downloaded r = 0 ∧ r_skipped r = 0 ∧ r_failed r = 0
  ∧ cache_file_current w'.
Proof.
  cbv zeta.
  pose proof (process_dataset_current server now w d false) as Hcur.
  revert Hcur. unfold process_dataset.
  destruct (discover_dataset_pages_requests server now w d 1000) as (k & Hk & Hrq).
  destruct (discover_dataset_pages_spec server now d 1000 w)
    as (_ & _ & Hc & _ & _ & _ & _ & Hpl).
  destruct (discover_dataset_pages server now w d 1000) as [w1 new_files].
  simpl in Hrq, Hc, Hpl.
  destruct new_files as [|f rest]; simpl; intros Hcur.
  - split; [exists k; split; [lia|done]|]. done.
  - rewrite save_cache_requests, save_cache_payloads, save_cache_cache.
    split; [exists k; split; [lia|done]|]. done.
Qed.

(** ** A second run in the same process *)



Section SecondRun.
Context `{Env} (server : string → Transport).






End SecondRun.




(** ** Cleanup *)

Lemma string_app_assoc (s1 s2 s3 : string) :
  (s1 +:+ s2) +:+ s3 = s1 +:+ (s2 +:+ s3).
Proof.
  induction s1 as [|c s1 IH]; [done|].
  change ((String c s1 +:+ s2) +:+ s3) with (String c ((s1 +:+ s2) +:+ s3)).
  change (String c s1 +:+ (s2 +:+ s3)) with (String c (s1 +:+ (s2 +:+ s3))).
  by rewrite IH.
Qed.

Lemma string_prefix_app (s t : string) : String.prefix s (s +:+ t) = true.
Proof.
  induction s as [|c s IH]; [by destruct t|].
  change (String c s +:+ t) with (String c (s +:+ t)).
  cbn [String.prefix]. destruct (Ascii.ascii_dec c c); [exact IH|done].
Qed.

Lemma string_substring_all (t : string) : String.substring 0 (String.length t) t = t.
Proof. induction t as [|c t IH]; [done|]. cbn [String.length String.substring]. by rewrite IH. Qed.

Lemma string_substring_app (s t : string) (n : nat) :
  String.substring (String.length s) n (s +:+ t) = String.substring 0 n t.
Proof.
  induction s as [|c s IH]; [done|].
  change (String c s +:+ t) with (String c (s +:+ t)).
  cbn [String.length String.substring]. exact IH.
Qed.

Lemma string_index_char (c : Ascii.ascii) (a b : string) :
  String.index 0 (String c "") (a +:+ String c b) ≠ None.
Proof.
  induction a as [|c' a IH].
  - change ("" +:+ String c b) with (String c b).
    cbn [String.index String.prefix].
    destruct (Ascii.ascii_dec c c); [|done].
    by destruct b.
  - change (String c' a +:+ String c b) with (String c' (a +:+ String c b)).
    cbn [String.index]. destruct (String.prefix _ _); [done|].
    destruct (String.index 0 (String c "") (a +:+ String c b)); done.
Qed.

Lemma string_index_slash (a b : string) :
  String.index 0 "/" (a +:+ "/" +:+ b) ≠ None.
Proof. exact (string_index_char _ a b). Qed.

(** A file in a dataset directory under a relative name lies where
    [cleanup_all] looks. *)
Lemma in_dataset_dir_path_join d name :
  String.prefix "/" name = false →
  in_dataset_dir (path_join (_get_dataset_dir d) name) = true.
Proof.
  intros Hrel. unfold path_join. rewrite Hrel.
  unfold in_dataset_dir, _get_dataset_dir.
  set (stem := raw_base_dir +:+ "/dataset").
  replace ((raw_base_dir +:+ "/dataset" +:+ pretty d) +:+ "/" +:+ name)
    with (stem +:+ (pretty d +:+ "/" +:+ name)).
  2:{ subst stem. by rewrite <- !string_app_assoc. }
  rewrite string_prefix_app. cbn [andb].
  rewrite string_length_app.
  replace (String.length stem + String.length (pretty d +:+ "/" +:+ name)
           - String.length stem)%nat
    with (String.length (pretty d +:+ "/" +:+ name)) by lia.
  rewrite string_substring_app, string_substring_all.
  destruct (String.index 0 "/" (pretty d +:+ "/" +:+ name)) eqn:E; [done|].
  by apply string_index_slash in E.
Qed.

Lemma relative_name_tmp name :
  String.prefix "/" name = false → String.prefix "/" (name +:+ ".tmp") = false.
Proof.
  destruct name as [|c name]; [done|].
  change (String c name +:+ ".tmp") with (String c (name +:+ ".tmp")).
  cbn [String.prefix]. destruct (Ascii.ascii_dec _ c); [|done].
  by destruct name.
Qed.

Lemma plain_name_relative (name : string) :
  plain_name name = true → String.prefix "/" name = false.
Proof.
  intros Hp. destruct name as [|c name]; [done|].
  cbn [String.prefix]. destruct (Ascii.ascii_dec _ c) as [<-|]; [|done].
  exfalso. unfold plain_name in Hp. apply andb_prop in Hp as [_ Hp].
  cbn [String.index String.prefix] in Hp.
  destruct (Ascii.ascii_dec _ _); [|done].
  by destruct name.
Qed.

(** X17. [cleanup_all] deletes exactly the payload files inside the
    dataset directories and leaves every other one, the files being named
    by their resolved paths; the final and the temporary file of every
    record with a plain file name are among those deleted. The cache
    afterwards has no record, no scanned dataset and zero counters, and
    keeps its version and creation stamp. *)
Theorem cleanup_all_removes_dataset_files (now : string) (w : World) :
  (∀ p, resolved_path p = true →
        payloads (cleanup_all now w) !! p
        = if in_dataset_dir p then None else payloads w !! p)
  ∧ (∀ m, plain_name (filename m) = true →
       payloads (cleanup_all now w) !! final_path m = None
       ∧ payloads (cleanup_all now w) !! temp_path m = None)
  ∧ cache (cleanup_all now w)
    = mkCacheState (version (cache w)) (created_at (cache w)) (Some now) ∅ ∅ 0 0 0 0 0.
Proof.
  assert (Hlook : ∀ p, payloads (cleanup_all now w) !! p
                       = if in_dataset_dir p then None else payloads w !! p).
  { intros p. unfold cleanup_all. rewrite save_cache_payloads. simpl.
    rewrite map_lookup_filter. simpl.
    destruct (payloads w !! p) as [bytes|]; simpl.
    - destruct (in_dataset_dir p).
      + by rewrite option_guard_False.
      + by rewrite option_guard_True.
    - by destruct (in_dataset_dir p). }
  split; [intros p _; exact (Hlook p)|]. split.
  - intros m Hplain. apply plain_name_relative in Hplain as Hrel.
    rewrite !Hlook. unfold final_path, temp_path.
    rewrite !in_dataset_dir_path_join; [done| |done].
    by apply relative_name_tmp.
  - unfold cleanup_all. rewrite save_cache_cache. reflexivity.
Qed.

Lemma cleanup_all_removes_dataset_files_witness :
  let w := fst (fst (download_file (H:=sample_env) server_one_file "t1"
                       world_pending record_x)) in
  plain_name (filename record_x) = true
  ∧ resolved_path "/data/downloads/raw/notes.txt" = true
  ∧ payloads w !! final_path record_x = Some pdf_body
  ∧ payloads (cleanup_all "t2" w) !! final_path record_x = None
  ∧ payloads (cleanup_all "t2" w) !! "/data/downloads/raw/notes.txt"
    = payloads w !! "/data/downloads/raw/notes.txt".
Proof.
  cbv zeta.
  assert (Hres : resolved_path "/data/downloads/raw/notes.txt" = true)
    by (vm_compute; reflexivity).
  split; [reflexivity|]. split; [exact Hres|]. split; [vm_compute; reflexivity|].
  destruct (cleanup_all_removes_dataset_files "t2"
              (fst (fst (download_file (H:=sample_env) server_one_file "t1"
                           world_pending record_x)))) as (Hlook & Hrec & _).
  split.
  - destruct (Hrec record_x) as [Hfinal _]; [reflexivity|exact Hfinal].
  - rewrite (Hlook _ Hres). reflexivity.
Defined.

(** ** Loading a cache document with file entries *)

Lemma entry_accepted_spec (e : MetaDoc) :
  entry_accepted e = true ↔ ∃ m, FileMetadata_from_dict e = Returned m.
Proof.
  unfold entry_accepted, FileMetadata_from_dict, DownloadStatus_of_value.
  destruct (md_status e) as [s|]; [|split; [done|by intros [m Hm]]].
  destruct (md_unknown e), (md_url e), (md_filename e), (md_dataset e),
    (md_discovered_at e), (String.eqb s "pending"), (String.eqb s "success"),
    (String.eqb s "failed"), (String.eqb s "skipped"); cbn;
    (split; [intros; try done; eexists; reflexivity | by intros [m Hm]]).
Qed.

Lemma files_from_dict_spec (docs : gmap string MetaDoc) :
  match files_from_dict docs with
  | Returned fs =>
      ∀ u, match docs !! u with
           | Some e => ∃ m, FileMetadata_from_dict e = Returned m ∧ fs !! u = Some m
           | None => fs !! u = None
           end
  | Raised _ => ∃ u e, docs !! u = Some e ∧ entry_accepted e = false
  end.
Proof.
  unfold files_from_dict.
  apply (map_fold_weak_ind
           (λ r docs,
              match r with
              | Returned fs =>
                  ∀ u, match docs !! u with
                       | Some e => ∃ m, FileMetadata_from_dict e = Returned m
                                        ∧ fs !! u = Some m
                       | None => fs !! u = None
                       end
              | Raised _ => ∃ u e, docs !! u = Some e ∧ entry_accepted e = false
              end)).
  - intros u. by rewrite !lookup_empty.
  - intros i x m r Hfresh IH. destruct r as [fs|ex]; cbn.
    + destruct (FileMetadata_from_dict x) as [f|ex] eqn:Hx; cbn.
      * intros u. destruct (decide (i = u)) as [->|Hne].
        -- rewrite !lookup_insert_eq. by exists f.
        -- rewrite !lookup_insert_ne by done. apply IH.
      * exists i, x. rewrite lookup_insert_eq. split; [done|].
        destruct (entry_accepted x) eqn:Hacc; [|done].
        apply entry_accepted_spec in Hacc as [m' Hm]. congruence.
    + destruct IH as (u & e & Hu & He). exists u, e. split; [|done].
      rewrite lookup_insert_ne; [done|]. intros ->. congruence.
Qed.

(** X18. A cache document all of whose file entries have the four fields
    without default, no key that is no field, and a status that is the text
    of a [DownloadStatus] member is loaded: [_load_cache] returns a cache
    with one record for every entry, under the key of the entry, and no
    other record. *)
Theorem load_cache_accepts_documents (now : string) (w : World) (d : CacheDoc) :
  cache_file w = Some (Document d) →
  (∀ u e, default ∅ (cd_files d) !! u = Some e → entry_accepted e = true) →
  ∃ c, _load_cache now w = Returned (c, [(INFO, "Cache loaded")])
       ∧ dom (files c) = dom (default ∅ (cd_files d))
       ∧ (∀ u e, default ∅ (cd_files d) !! u = Some e →
            ∃ m, FileMetadata_from_dict e = Returned m ∧ files c !! u = Some m)
       ∧ total_discovered c = default 0 (cd_total_discovered d)
       ∧ datasets_scanned c = list_to_set (default [] (cd_datasets_scanned d)).
Proof.
  intros Hfile Hacc. unfold _load_cache. rewrite Hfile. cbn.
  unfold CacheState_from_dict.
  pose proof (files_from_dict_spec (default ∅ (cd_files d))) as Hspec.
  destruct (files_from_dict (default ∅ (cd_files d))) as [fs|ex]; cbn.
  - eexists. split; [reflexivity|]. cbn. split; [|split; [|done]].
    + apply set_eq. intros u. rewrite !elem_of_dom. specialize (Hspec u).
      destruct (default ∅ (cd_files d) !! u) as [e|].
      * destruct Hspec as (m & _ & ->). split; eauto.
      * rewrite Hspec. split; by intros [? ?].
    + intros u e Hu. specialize (Hspec u). by rewrite Hu in Hspec.
  - destruct Hspec as (u & e & Hu & He). rewrite (Hacc u e Hu) in He. done.
Qed.

Lemma load_cache_accepts_documents_witness :
  ∃ c, _load_cache "t1" (mkWorld (new_CacheState "t1") ∅
                           (Some (Document doc_with_status)) None [])
       = Returned (c, [(INFO, "Cache loaded")])
       ∧ status <$> files c !! url_ax = Some SUCCESS.
Proof.
  destruct (load_cache_accepts_documents "t1"
              (mkWorld (new_CacheState "t1") ∅ (Some (Document doc_with_status)) None [])
              doc_with_status) as (c & Hload & _ & Hrec & _).
  - reflexivity.
  - intros u e. cbn. intros Hu.
    apply lookup_singleton_Some in Hu as [_ <-]. reflexivity.
  - exists c. split; [exact Hload|].
    destruct (Hrec url_ax (mkMetaDoc (Some url_ax) (Some "x.pdf") (Some 1) (Some "t0")
                        None (Some "success") None None None None None None []))
      as (m & Hm & ->).
    + exact (lookup_singleton_eq _ _).
    + cbn in Hm. injection Hm as <-. reflexivity.
Defined.

(** X19. One file entry that [FileMetadata.from_dict] rejects (no status,
    a status that names no member, a missing field without default, or a
    key that is no field) makes [_load_cache] drop the whole document: it
    returns a new cache, stamped with the current time, and logs the
    corruption warning, whatever the other entries and counters of the
    document are. *)
Theorem load_cache_drops_document_with_bad_entry
    (now : string) (w : World) (d : CacheDoc) (u : string) (e : MetaDoc) :
  cache_file w = Some (Document d) →
  default ∅ (cd_files d) !! u = Some e →
  entry_accepted e = false →
  _load_cache now w = Returned (new_CacheState now, [(WARNING, "Cache corrupted")]).
Proof.
  intros Hfile Hu He. unfold _load_cache. rewrite Hfile. cbn.
  unfold CacheState_from_dict.
  pose proof (files_from_dict_spec (default ∅ (cd_files d))) as Hspec.
  destruct (files_from_dict (default ∅ (cd_files d))) as [fs|ex]; cbn; [|done].
  specialize (Hspec u). rewrite Hu in Hspec. destruct Hspec as (m & Hm & _).
  assert (entry_accepted e = true) by (apply entry_accepted_spec; eauto).
  congruence.
Qed.

Lemma load_cache_drops_document_with_bad_entry_witness :
  _load_cache "t1" (mkWorld (new_CacheState "t1") ∅
                      (Some (Document doc_missing_status)) None [])
  = Returned (new_CacheState "t1", [(WARNING, "Cache corrupted")]).
Proof.
  apply (load_cache_drops_document_with_bad_entry "t1" _ doc_missing_status url_ax
           (mkMetaDoc (Some url_ax) (Some "x.pdf") (Some 1) (Some "t0")
              None None None None None None None None [])).
  - reflexivity.
  - exact (lookup_singleton_eq _ _).
  - reflexivity.
Defined.

(** X20. [cleanup_all] does not remove the cache file: it saves the
    emptied cache over it, keeping the file that was there as the backup,
    and the next [_load_cache] returns that emptied cache, with the version
    and the creation stamp of the cache that was cleaned. *)
Theorem cleanup_all_keeps_cache_file (now now2 : string) (w : World) :
  _load_cache now2 (cleanup_all now w)
    = Returned (mkCacheState (version (cache w)) (created_at (cache w)) (Some now)
                  ∅ ∅ 0 0 0 0 0,
                [(INFO, "Cache loaded")])
  ∧ backup_cache_file (cleanup_all now w)
    = match cache_file w with
      | Some old => Some old
      | None => backup_cache_file w
      end.
Proof.
  destruct w as [[v ca lu fs dss mx td tdl tf ts] p cf bf rq].
  assert (Hfile : cache_file
                    (cleanup_all now
                       (mkWorld (mkCacheState v ca lu fs dss mx td tdl tf ts) p cf bf rq))
                  = Some (Document
                            (mkCacheDoc (Some v) ca (Some now) (Some ∅)
                               (Some (elements (∅ : gset Z))) (Some 0) (Some 0) (Some 0)
                               (Some 0) (Some 0)))).
  { destruct cf; unfold cleanup_all, _save_cache, json_dump, to_serializable; simpl;
      by rewrite decide_True. }
  split.
  - unfold _load_cache. rewrite Hfile. simpl.
    unfold CacheState_from_dict, files_from_dict. simpl.
    rewrite map_fold_empty. simpl. by rewrite elements_empty.
  - destruct cf; unfold cleanup_all, _save_cache, json_dump, to_serializable; simpl;
      by rewrite decide_True.
Qed.
